(** * Event-wiring extraction from scene files: [parse_events.py]

    A shallow embedding of [parse_scene] (src/ExampleScenes/parse_events.py)
    and the properties of its two passes.

    Conventions of the embedding.
    - A line is a [string]; a character is a code point below 256.  The
      character classes of Python ([str.isspace], the regex classes [\d] and
      [\w]) are written out for that range.
    - The input is the list [lines] that [f.readlines()] returns.
    - [lines[j]] is [lines !!! j]; every such access of the source is guarded
      by a comparison with [len(lines)], which the embedding keeps.
    - A loop [while j < B: ...; j += 1] whose body cannot change [B] is a
      structural recursion on the number [B - j] of iterations left.  The one
      loop whose cursor is not advanced by a constant, the persistent-calls
      loop ([k = m]), takes a fuel and answers [None] when the fuel runs out.
    - The identifier mapping [gameobjects] is a [gmap string string]. *)

From Stdlib Require Import Ascii String.
From stdpp Require Import base option list gmap strings pretty.

(** ** Python text primitives *)

Module Txt.

(** [str.isspace] on one character. *)
Definition isspace (c : ascii) : bool :=
  let n := nat_of_ascii c in
  ((9 <=? n) && (n <=? 13)) || ((28 <=? n) && (n <=? 32))
  || (n =? 133) || (n =? 160).

(** The regex class [\d] (decimal digits). *)
Definition isdigit (c : ascii) : bool :=
  let n := nat_of_ascii c in (48 <=? n) && (n <=? 57).

(** The regex class [[a-zA-Z]]. *)
Definition isletter (c : ascii) : bool :=
  let n := nat_of_ascii c in
  ((65 <=? n) && (n <=? 90)) || ((97 <=? n) && (n <=? 122)).

(** The regex class [\w]: alphanumeric characters and the underscore. *)
Definition isword (c : ascii) : bool :=
  let n := nat_of_ascii c in
  isdigit c || isletter c || (n =? 95)
  || (n =? 170) || (n =? 178) || (n =? 179) || (n =? 181) || (n =? 185)
  || (n =? 186) || ((188 <=? n) && (n <=? 190))
  || ((192 <=? n) && (n <=? 214)) || ((216 <=? n) && (n <=? 246))
  || (248 <=? n).

(** [s.startswith(p)] *)
Definition startswith (s p : string) : bool := String.prefix p s.

(** [sub in s] *)
Fixpoint contains (sub s : string) : bool :=
  String.prefix sub s
  || match s with
     | EmptyString => false
     | String _ s' => contains sub s'
     end.

(** [s.split(sep)] for a non-empty [sep]: [skip] counts the characters of
    a separator that are still to be passed over, [cur] is the current
    piece, reversed. *)
Fixpoint split_go (sep : string) (skip : nat) (cur : string) (s : string)
  : list string :=
  match s with
  | EmptyString => [String.rev cur]
  | String c s' =>
      match skip with
      | S n => split_go sep n cur s'
      | O =>
          if String.prefix sep s
          then String.rev cur :: split_go sep (String.length sep - 1) "" s'
          else split_go sep 0 (String c cur) s'
      end
  end.

Definition split (sep s : string) : list string := split_go sep 0 "" s.

(** [s.split(sep)[n]] *)
Definition piece (n : nat) (sep s : string) : string := split sep s !!! n.

Fixpoint lstrip (s : string) : string :=
  match s with
  | EmptyString => ""
  | String c s' => if isspace c then lstrip s' else s
  end.

Definition rstrip (s : string) : string := String.rev (lstrip (String.rev s)).

(** [s.strip()] *)
Definition strip (s : string) : string := rstrip (lstrip s).

Fixpoint lstrip_char (c : ascii) (s : string) : string :=
  match s with
  | EmptyString => ""
  | String d s' => if Ascii.eqb c d then lstrip_char c s' else s
  end.

(** [s.rstrip(c)] for a one-character argument. *)
Definition rstrip_char (c : ascii) (s : string) : string :=
  String.rev (lstrip_char c (String.rev s)).

(** The longest prefix of [s] made of characters in the class [p]. *)
Fixpoint span (p : ascii → bool) (s : string) : string :=
  match s with
  | EmptyString => ""
  | String c s' => if p c then String c (span p s') else ""
  end.

Fixpoint drop (n : nat) (s : string) : string :=
  match n, s with
  | S n', String _ s' => drop n' s'
  | _, _ => s
  end.

(** Truth value of a string: non-empty. *)
Definition nonempty (s : string) : bool :=
  match s with EmptyString => false | _ => true end.

(** [re.match(lit + r'(\d+)', s)]: the literal [lit] at the start of [s],
    then the longest run of digits, which must not be empty; answers
    [group(1)]. *)
Definition match_lit_digits (lit s : string) : option string :=
  if String.prefix lit s
  then let d := span isdigit (drop (String.length lit) s) in
       if nonempty d then Some d else None
  else None.

(** [re.search(lit + r'(\d+)', s)]: the leftmost match. *)
Fixpoint search_lit_digits (lit s : string) : option string :=
  match match_lit_digits lit s with
  | Some d => Some d
  | None =>
      match s with
      | EmptyString => None
      | String _ s' => search_lit_digits lit s'
      end
  end.

End Txt.

(** ** Data model

    [comp_data] and [call_data] are the two dictionaries of the source; a key
    that may be absent is an [option] field. *)

Record call_data := CallData {
  event : string;
  target_name : option string;
  target_type : option string;
  method : option string;
  arg : option string
}.

Record comp_data := CompData {
  comp_id : string;
  events : list call_data;
  gameobject : option string;
  comp_type : option string
}.

Definition set_target_name (v : string) (c : call_data) : call_data :=
  CallData (event c) (Some v) (target_type c) (method c) (arg c).
Definition set_target_type (v : string) (c : call_data) : call_data :=
  CallData (event c) (target_name c) (Some v) (method c) (arg c).
Definition set_method (v : string) (c : call_data) : call_data :=
  CallData (event c) (target_name c) (target_type c) (Some v) (arg c).
Definition set_arg (v : string) (c : call_data) : call_data :=
  CallData (event c) (target_name c) (target_type c) (method c) (Some v).

(** ** Markers *)

Definition newline : string := String "010"%char "".
Definition dquote : string := String "034"%char "".

Definition list_item : string := "      -".
Definition document_marker : string := "---".

(** [re.match(r'--- !u!1 &(\d+)', line)] *)
Definition gameobject_header (line : string) : option string :=
  Txt.match_lit_digits "--- !u!1 &" line.

(** [re.match(r'--- !u!114 &(\d+)', line)] *)
Definition monobehaviour_header (line : string) : option string :=
  Txt.match_lit_digits "--- !u!114 &" line.

(** [re.search(r'fileID: (\d+)', line)] *)
Definition fileID (line : string) : option string :=
  Txt.search_lit_digits "fileID: " line.

(** [re.match(r'^  [a-zA-Z]', line)] *)
Definition class_shape (line : string) : bool :=
  match line with
  | String " " (String " " (String c _)) => Txt.isletter c
  | _ => false
  end.

(** [re.match(r'  \w+:$', line)]: two spaces, a non-empty run of word
    characters, a colon, and then the end of the string or its final
    newline. *)
Definition event_shape (line : string) : bool :=
  if String.prefix "  " line
  then let rest := Txt.drop 2 line in
       let w := Txt.span Txt.isword rest in
       let tail := Txt.drop (String.length w) rest in
       Txt.nonempty w && (String.eqb tail ":" || String.eqb tail (":" +:+ newline))
  else false.

(** [gameobjects.get(id, f'Unknown-{id}')] *)
Definition resolve (gameobjects : gmap string string) (id : string) : string :=
  default ("Unknown-" +:+ id) (gameobjects !! id).

(** ** First pass: GameObject ID -> Name (lines 14-24) *)

Definition first_pass_step (st : gmap string string * option string)
    (line : string) : gmap string string * option string :=
  let '(gameobjects, current_id) := st in
  match gameobject_header line with
  | Some id => (gameobjects, Some id)
  | None =>
      match current_id with
      | Some id =>
          if Txt.nonempty id && Txt.contains "m_Name:" line
          then (<[id := Txt.strip (Txt.piece 1 "m_Name:" line)]> gameobjects, None)
          else st
      | None => st
      end
  end.

Definition first_pass (lines : list string) : gmap string string * option string :=
  foldl first_pass_step (∅, None) lines.

Definition build_gameobjects (lines : list string) : gmap string string :=
  (first_pass lines).1.

(** ** Second pass: one behaviour block *)

(** Lines 38-45: the owner reference, searched in [lines[i : i+20]]. *)
Fixpoint find_gameobject (gameobjects : gmap string string)
    (lines : list string) (n j : nat) : option string :=
  match n with
  | O => None
  | S n' =>
      if Txt.contains "m_GameObject: {fileID:" (lines !!! j)
      then match fileID (lines !!! j) with
           | Some go_id => Some (resolve gameobjects go_id)
           | None => None
           end
      else find_gameobject gameobjects lines n' (j + 1)
  end.

(** Lines 62-71: the class name, searched in [lines[i : i+50]].  (The loop of
    lines 48-59 before it assigns nothing that is read later.) *)
Fixpoint find_type (lines : list string) (n j : nat) : option string :=
  match n with
  | O => None
  | S n' =>
      let l := lines !!! j in
      if class_shape l && negb (Txt.contains ":" l)
         && negb (Txt.startswith (Txt.strip l) "m_")
      then let potential_type := Txt.strip l in
           if Txt.nonempty potential_type
              && negb (Txt.startswith potential_type "-")
           then Some potential_type
           else find_type lines n' (j + 1)
      else find_type lines n' (j + 1)
  end.

(** The literal of an argument field: [lines[arg_line].split(':')[1].strip()]. *)
Definition arg_value (l : string) : string := Txt.strip (Txt.piece 1 ":" l).

(** Lines 117-129: what one line of the argument window does to
    [call_data['arg']]; [None] leaves it as it is. *)
Definition arg_of_line (l : string) : option string :=
  if Txt.contains "m_IntArgument:" l
  then Some ("int(" +:+ arg_value l +:+ ")")
  else if Txt.contains "m_FloatArgument:" l
          && negb (String.eqb (arg_value l) "0")
  then Some ("float(" +:+ arg_value l +:+ ")")
  else if Txt.contains "m_StringArgument:" l
  then if Txt.nonempty (arg_value l)
       then Some (dquote +:+ arg_value l +:+ dquote)
       else None
  else if Txt.contains "m_BoolArgument:" l
  then Some (arg_value l)
  else None.

(** Lines 115-130: the argument window [lines[m : m+10]]. *)
Fixpoint args_loop (lines : list string) (n arg_line : nat) (c : call_data)
  : call_data :=
  match n with
  | O => c
  | S n' =>
      let c' := match arg_of_line (lines !!! arg_line) with
                | Some v => set_arg v c
                | None => c
                end in
      args_loop lines n' (arg_line + 1) c'
  end.

(** Lines 107-130: the body of the method lookahead at line [m]. *)
Definition method_line (lines : list string) (m : nat) (c : call_data)
  : call_data :=
  let l := lines !!! m in
  if Txt.contains "m_TargetAssemblyTypeName:" l
  then let type_str := Txt.strip (Txt.piece 1 "m_TargetAssemblyTypeName:" l) in
       set_target_type (Txt.piece 0 "," type_str) c
  else if Txt.contains "m_MethodName:" l
  then set_method (Txt.strip (Txt.piece 1 "m_MethodName:" l)) c
  else if Txt.contains "m_Arguments:" l
  then args_loop lines (min (m + 10) (length lines) - m) m c
  else c.

(** Lines 105-131: the method lookahead; it answers the final [m] too. *)
Fixpoint method_loop (lines : list string) (n m : nat) (c : call_data)
  : nat * call_data :=
  match n with
  | O => (m, c)
  | S n' =>
      if Txt.startswith (lines !!! m) list_item
      then (m, c)
      else method_loop lines n' (m + 1) (method_line lines m c)
  end.

(** Lines 99-102: the target reference of the list-item line. *)
Definition extract_target (gameobjects : gmap string string) (l : string)
    (c : call_data) : call_data :=
  if Txt.contains "m_Target: {fileID:" l
  then match fileID l with
       | Some target_id => set_target_name (resolve gameobjects target_id) c
       | None => c
       end
  else c.

(** Lines 96-131: the call record read at cursor [k], with the final [m] of
    its method lookahead. *)
Definition call_record (gameobjects : gmap string string)
    (lines : list string) (event_name : string) (k : nat) : nat * call_data :=
  let c := CallData event_name None None None None in
  let c := extract_target gameobjects (lines !!! k) c in
  method_loop lines (min (k + 10) (length lines) - k) k c.

(** Lines 96-136: one iteration of the persistent-calls loop at cursor [k];
    it answers the next cursor and the events of the component. *)
Definition call_step (gameobjects : gmap string string) (lines : list string)
    (event_name : string) (k : nat) (evs : list call_data)
  : nat * list call_data :=
  let '(m, c) := call_record gameobjects lines event_name k in
  (m, match method c with Some _ => evs ++ [c] | None => evs end).

(** Lines 93-136: the persistent-calls loop.  The next cursor is the [m] of
    the method lookahead, so the loop is driven by a fuel. *)
Fixpoint calls_loop (fuel : nat) (gameobjects : gmap string string)
    (lines : list string) (event_name : string) (k : nat)
    (evs : list call_data) : option (list call_data) :=
  match fuel with
  | O => None
  | S fuel' =>
      if (k <? length lines) && Txt.startswith (lines !!! k) list_item
      then let '(m, evs') := call_step gameobjects lines event_name k evs in
           calls_loop fuel' gameobjects lines event_name m evs'
      else Some evs
  end.

(** Lines 86-136: what the line [j] of a block adds to its events. *)
Definition event_line (fuel : nat) (gameobjects : gmap string string)
    (lines : list string) (j : nat) (evs : list call_data)
  : option (list call_data) :=
  let line_j := lines !!! j in
  if event_shape line_j
  then let event_name := Txt.rstrip_char ":" (Txt.strip line_j) in
       if (j + 2 <? length lines)
          && Txt.contains "m_PersistentCalls:" (lines !!! (j + 1))
       then if Txt.contains "m_Calls:" (lines !!! (j + 2))
            then calls_loop fuel gameobjects lines event_name (j + 3) evs
            else Some evs
       else Some evs
  else Some evs.

(** Lines 77-138: the scan of the block that starts at line [i]. *)
Fixpoint events_loop (fuel : nat) (gameobjects : gmap string string)
    (lines : list string) (i n j : nat) (evs : list call_data)
  : option (list call_data) :=
  match n with
  | O => Some evs
  | S n' =>
      if (i <? j) && Txt.startswith (lines !!! j) document_marker
      then Some evs
      else match event_line fuel gameobjects lines j evs with
           | None => None
           | Some evs' => events_loop fuel gameobjects lines i n' (j + 1) evs'
           end
  end.

(** Lines 34-138: the record of the block whose header is line [i]. *)
Definition block_record (fuel : nat) (gameobjects : gmap string string)
    (lines : list string) (i : nat) (id : string) : option comp_data :=
  let len := length lines in
  let go := find_gameobject gameobjects lines (min (i + 20) len - i) i in
  let ty := match find_type lines (min (i + 50) len - i) i with
            | Some t => if Txt.nonempty t then Some t else None
            | None => None
            end in
  match events_loop fuel gameobjects lines i (len - i) i [] with
  | None => None
  | Some evs => Some (CompData id evs go ty)
  end.

(** Lines 140-141: the assembler keeps a record with events only. *)
Definition assemble (components : list comp_data) (c : comp_data)
  : list comp_data :=
  match events c with
  | [] => components
  | _ :: _ => components ++ [c]
  end.

(** Lines 29-143. *)
Fixpoint second_pass (fuel : nat) (gameobjects : gmap string string)
    (lines : list string) (n i : nat) (components : list comp_data)
  : option (list comp_data) :=
  match n with
  | O => Some components
  | S n' =>
      match monobehaviour_header (lines !!! i) with
      | Some id =>
          match block_record fuel gameobjects lines i id with
          | None => None
          | Some c =>
              second_pass fuel gameobjects lines n' (i + 1)
                (assemble components c)
          end
      | None => second_pass fuel gameobjects lines n' (i + 1) components
      end
  end.

(** [parse_scene]: [None] when a persistent-calls loop has not finished
    within [fuel] iterations. *)
Definition parse_scene (fuel : nat) (lines : list string)
  : option (list comp_data) :=
  second_pass fuel (build_gameobjects lines) lines (length lines) 0 [].

(** ** Scenes on which the calls loop is entered *)

(** The line [j] is an event line whose call list has a first item. *)
Definition opens_calls (lines : list string) (j : nat) : bool :=
  event_shape (lines !!! j)
  && (j + 3 <? length lines)
  && Txt.contains "m_PersistentCalls:" (lines !!! (j + 1))
  && Txt.contains "m_Calls:" (lines !!! (j + 2))
  && Txt.startswith (lines !!! (j + 3)) list_item.

(** No line after [i] and up to [j] starts a new document. *)
Definition in_block (lines : list string) (i j : nat) : bool :=
  forallb (λ j', negb (Txt.startswith (lines !!! j') document_marker))
          (seq (S i) (j - i)).

(** The block whose header is line [i] has, at its line [j], an event with
    a call in its list. *)
Definition hangs (lines : list string) (i j : nat) : bool :=
  bool_decide (is_Some (monobehaviour_header (lines !!! i)))
  && (i <=? j) && in_block lines i j && opens_calls lines j.

(** ** Sample scenes *)

Definition ln (s : string) : string := s +:+ newline.

(** The end-to-end scene of the specification. *)
Definition door_scene : list string :=
  [ ln "--- !u!1 &100";
    ln "GameObject:";
    ln "  m_Name: Door";
    ln "--- !u!114 &200";
    ln "MonoBehaviour:";
    ln "  m_GameObject: {fileID: 100}";
    ln "  m_Script: {fileID: 11500000, guid: abc, type: 3}";
    ln "  onOpen:";
    ln "    m_PersistentCalls:";
    ln "      m_Calls:";
    ln "      - m_Target: {fileID: 100}";
    ln "        m_TargetAssemblyTypeName: Door, Assembly-CSharp";
    ln "        m_MethodName: Open";
    ln "        m_Mode: 6";
    ln "        m_Arguments:";
    ln "          m_IntArgument: 0";
    ln "          m_FloatArgument: 0";
    ln "          m_StringArgument: ";
    ln "          m_BoolArgument: 1";
    ln "        m_CallState: 2" ].

(** A scene whose behaviour block has an event with an empty call list. *)
Definition idle_scene : list string :=
  [ ln "--- !u!1 &100";
    ln "GameObject:";
    ln "  m_Name: Door";
    ln "--- !u!114 &200";
    ln "MonoBehaviour:";
    ln "  m_GameObject: {fileID: 100}";
    ln "  onOpen:";
    ln "    m_PersistentCalls:";
    ln "      m_Calls: []" ].

(** A behaviour block with one event and one call, and nothing else. *)
Definition calls_scene : list string :=
  [ ln "--- !u!114 &200";
    ln "  onOpen:";
    ln "    m_PersistentCalls:";
    ln "      m_Calls:";
    ln "      - m_Target: {fileID: 100}" ].

(** A call whose only argument field is the float field, with value 2.5. *)
Definition float_scene : list string :=
  [ ln "--- !u!114 &200";
    ln "MonoBehaviour:";
    ln "  onFire:";
    ln "    m_PersistentCalls:";
    ln "      m_Calls:";
    ln "      - m_Target: {fileID: 100}";
    ln "        m_MethodName: SetSpeed";
    ln "        m_Arguments:";
    ln "          m_FloatArgument: 2.5";
    ln "        m_CallState: 2" ].

(** ** Argument fields *)

Inductive arg_field :=
  IntArgument | FloatArgument | StringArgument | BoolArgument.

Definition field_marker (f : arg_field) : string :=
  match f with
  | IntArgument => "m_IntArgument:"
  | FloatArgument => "m_FloatArgument:"
  | StringArgument => "m_StringArgument:"
  | BoolArgument => "m_BoolArgument:"
  end.

Definition all_fields : list arg_field :=
  [IntArgument; FloatArgument; StringArgument; BoolArgument].

Definition field_eqb (f g : arg_field) : bool :=
  match f, g with
  | IntArgument, IntArgument | FloatArgument, FloatArgument
  | StringArgument, StringArgument | BoolArgument, BoolArgument => true
  | _, _ => false
  end.

Definition has_field (f : arg_field) (l : string) : bool :=
  Txt.contains (field_marker f) l.

(** [l] is a line of the field [f] and of no other argument field. *)
Definition field_line (f : arg_field) (l : string) : bool :=
  forallb (λ g, Bool.eqb (has_field g l) (field_eqb g f)) all_fields.

(** [l] holds no argument field. *)
Definition plain_arg_line (l : string) : bool :=
  forallb (λ g, negb (has_field g l)) all_fields.

(** In the window [lines[a : a+n]] no line but [lines[p]] holds an argument
    field. *)
Definition only_field_at (lines : list string) (a n p : nat) : bool :=
  forallb (λ q, (q =? p) || plain_arg_line (lines !!! q)) (seq a n).

(** The arguments that the lines of the window [lines[a : a+n]] select, in
    file order. *)
Definition accepted_args (lines : list string) (a n : nat) : list string :=
  omap (λ q, arg_of_line (lines !!! q)) (seq a n).

(** No line of the method lookahead of the cursor [k] holds a method-name
    field. *)
Definition no_method_name (lines : list string) (k : nat) : bool :=
  forallb (λ m, negb (Txt.contains "m_MethodName:" (lines !!! m)))
          (seq k (min (k + 10) (length lines) - k)).

(** Argument windows: the lines that follow a list item, from the
    [m_Arguments:] line on. *)
Definition int_zero_window : list string :=
  [ ln "        m_Arguments:";
    ln "          m_ObjectArgumentAssemblyTypeName: UnityEngine.Object, UnityEngine";
    ln "          m_IntArgument: 0";
    ln "        m_CallState: 2" ].

Definition float_window (v : string) : list string :=
  [ ln "        m_Arguments:";
    ln ("          m_FloatArgument: " +:+ v);
    ln "        m_CallState: 2" ].

Definition string_default_window : list string :=
  [ ln "        m_Arguments:";
    ln "          m_StringArgument: ";
    ln "        m_CallState: 2" ].

Definition bool_default_window : list string :=
  [ ln "        m_Arguments:";
    ln "          m_BoolArgument: 0";
    ln "        m_CallState: 2" ].

Definition int_then_bool_window : list string :=
  [ ln "        m_Arguments:";
    ln "          m_IntArgument: 7";
    ln "          m_FloatArgument: 0";
    ln "          m_StringArgument: ";
    ln "          m_BoolArgument: 1";
    ln "        m_CallState: 2" ].

Definition bool_then_int_window : list string :=
  [ ln "        m_Arguments:";
    ln "          m_BoolArgument: 1";
    ln "          m_IntArgument: 7";
    ln "        m_CallState: 2" ].

Definition no_call : call_data := CallData "onOpen" None None None None.

(** No line of the window [lines[a : a+n]] selects an argument. *)
Definition none_accepted (lines : list string) (a n : nat) : bool :=
  forallb (λ q, match arg_of_line (lines !!! q) with
                | None => true
                | Some _ => false
                end) (seq a n).

(** A block whose owner reference names an object that the scene does not
    define. *)
Definition dangling_scene : list string :=
  [ ln "--- !u!1 &100";
    ln "GameObject:";
    ln "  m_Name: Door";
    ln "--- !u!114 &200";
    ln "MonoBehaviour:";
    ln "  m_GameObject: {fileID: 999}";
    ln "  m_Enabled: 1" ].

(** ** Object documents

    The shape of input that the first pass is meant for: lines without an
    object header, then object documents, each an object header followed,
    before the next object header, by a line holding a name field. *)

Record object_doc := ObjectDoc {
  header : string;
  before_name : list string;
  name_field : string;
  after_name : list string
}.

Definition doc_lines (d : object_doc) : list string :=
  header d :: before_name d ++ name_field d :: after_name d.

Definition no_header (l : string) : bool :=
  match gameobject_header l with None => true | Some _ => false end.

Definition holds_name (l : string) : bool := Txt.contains "m_Name:" l.

Definition well_formed_doc (d : object_doc) : bool :=
  negb (no_header (header d))
  && forallb (λ l, no_header l && negb (holds_name l)) (before_name d)
  && no_header (name_field d) && holds_name (name_field d)
  && forallb no_header (after_name d).

(** The ID of the header and the name of the name field, as the first pass
    reads them. *)
Definition doc_id (d : object_doc) : string :=
  default "" (gameobject_header (header d)).

Definition doc_name (d : object_doc) : string :=
  Txt.strip (Txt.piece 1 "m_Name:" (name_field d)).

Definition scene_of (preamble : list string) (docs : list object_doc)
  : list string :=
  preamble ++ concat (doc_lines <$> docs).

Definition record_name (gameobjects : gmap string string) (d : object_doc)
  : gmap string string :=
  <[doc_id d := doc_name d]> gameobjects.

Definition door_doc : object_doc :=
  ObjectDoc (ln "--- !u!1 &100")
            [ln "GameObject:"; ln "  m_Layer: 0"]
            (ln "  m_Name: Door")
            [ln "  m_IsActive: 1"; ln "--- !u!4 &101"; ln "Transform:"].

Definition key_doc : object_doc :=
  ObjectDoc (ln "--- !u!1 &102") [ln "GameObject:"] (ln "  m_Name: Key") [].

Definition gate_doc : object_doc :=
  ObjectDoc (ln "--- !u!1 &100") [ln "GameObject:"] (ln "  m_Name: Gate") [].

Definition yaml_preamble : list string :=
  [ln "%YAML 1.1"; ln "%TAG !u! tag:unity3d.com,2011:"].

(** ** The region of a block *)

(** The first line at or after [j], among the next [n], that starts a
    document; [j + n] when there is none. *)
Fixpoint next_marker (lines : list string) (n j : nat) : nat :=
  match n with
  | O => j
  | S n' =>
      if Txt.startswith (lines !!! j) document_marker
      then j
      else next_marker lines n' (j + 1)
  end.

(** The end of the region of the block whose header is line [i]: the next
    line after [i] that starts with [---], or the end of the input. *)
Definition region_end (lines : list string) (i : nat) : nat :=
  next_marker lines (length lines - S i) (S i).




(** A call whose argument window holds the int field and then the bool
    field. *)
Definition int_bool_scene : list string :=
  [ ln "--- !u!114 &200";
    ln "MonoBehaviour:";
    ln "  onOpen:";
    ln "    m_PersistentCalls:";
    ln "      m_Calls:";
    ln "      - m_Target: {fileID: 100}";
    ln "        m_MethodName: Open";
    ln "        m_Arguments:";
    ln "          m_IntArgument: 7";
    ln "          m_BoolArgument: 1";
    ln "        m_CallState: 2" ].

(** ** Predicates on text used in the statements *)

(** Every character of [s] is in the class [p]. *)
Fixpoint all_chars (p : ascii → bool) (s : string) : bool :=
  match s with
  | EmptyString => true
  | String c s' => p c && all_chars p s'
  end.

(** [s] starts with a whitespace character. *)
Definition head_space (s : string) : bool :=
  match s with
  | EmptyString => false
  | String c _ => Txt.isspace c
  end.

(** ** Where an entry of the identifier mapping comes from *)

(** A line between an object header and its name: neither an object header
    nor a line with a name field. *)
Definition plain_line (l : string) : bool :=
  no_header l && negb (holds_name l).

(** In [lines], an object header with the ID [id] is followed, with only
    plain lines in between, by a line whose name field reads [name]. *)
Definition recorded_from (lines : list string) (id name : string) : Prop :=
  ∃ before h mid l after,
    lines = before ++ h :: mid ++ l :: after
    ∧ gameobject_header h = Some id
    ∧ forallb plain_line mid = true
    ∧ no_header l = true ∧ holds_name l = true
    ∧ name = Txt.strip (Txt.piece 1 "m_Name:" l).

(** The ID [id] is pending at the end of [lines]. *)
Definition pending_from (lines : list string) (id : string) : Prop :=
  ∃ before h mid,
    lines = before ++ h :: mid
    ∧ gameobject_header h = Some id
    ∧ forallb plain_line mid = true.

(** ** Windows of lines *)

(** The lines [lines[j : j+n]], read as the source reads them. *)
Definition window (lines : list string) (j n : nat) : list string :=
  (λ q, lines !!! q) <$> seq j n.

(** A line that holds an owner reference. *)
Definition owner_line (l : string) : bool :=
  Txt.contains "m_GameObject: {fileID:" l.

(** A line that the class-name loop takes (line 66). *)
Definition type_line (l : string) : bool :=
  class_shape l && negb (Txt.contains ":" l)
  && negb (Txt.startswith (Txt.strip l) "m_").

(** A behaviour block that comes before the object that owns it. *)
Definition block_preamble : list string :=
  [ ln "--- !u!114 &200";
    ln "MonoBehaviour:";
    ln "  m_GameObject: {fileID: 100}" ].

(** A block whose first owner reference has no ID. *)
Definition broken_owner_scene : list string :=
  [ ln "--- !u!114 &200";
    ln "  m_GameObject: {fileID: }";
    ln "  m_GameObject: {fileID: 100}" ].

(** A block with a class-name line. *)
Definition typed_scene : list string :=
  [ ln "--- !u!114 &200";
    ln "MonoBehaviour:";
    ln "  m_Enabled: 1";
    ln "  Opener";
    ln "  Closer" ].

(** ** Predicates and scenes for the first pass on any input *)

(** The line [l] is not an object header with the ID [id]. *)
Definition other_object (id l : string) : bool :=
  match gameobject_header l with
  | Some id' => negb (String.eqb id' id)
  | None => true
  end.

(** An object whose document holds no name field, followed by a behaviour
    document that holds one. *)
Definition nameless_scene : list string :=
  [ ln "--- !u!1 &100";
    ln "GameObject:";
    ln "  m_Layer: 0";
    ln "--- !u!114 &101";
    ln "MonoBehaviour:";
    ln "  m_Name: Hinge";
    ln "--- !u!1 &102";
    ln "GameObject:";
    ln "  m_Name: Key" ].

(** A character other than the colon. *)
Definition not_colon (c : ascii) : bool := negb (Ascii.eqb c ":").

(** ** The report: [print_documentation] and the run over the scenes
       (lines 147-185)

    The standard output is the list of the texts printed, one for each call
    of [print], in order; on the stream each is followed by a newline.  The
    traceback of line 185 goes to the standard error and is left out.  The
    arrow of line 173, a character above 255, stands as the bytes of its
    UTF-8 encoding. *)

Definition print (x : string) (out : list string) : list string := out ++ [x].

(** [s * n] *)
Fixpoint times (s : string) (n : nat) : string :=
  match n with
  | O => ""
  | S n' => s +:+ times s n'
  end.

Definition rule : string := times "=" 70.

Definition arrow : string := "→".

(** How a call of [print_documentation] ends: it returns, it raises an
    exception with the message [e], or [parse_scene] has not returned
    within the fuel. *)
Inductive completion := Finished | Raised (e : string) | Unfinished.

(** Lines 149-151. *)
Definition banner (scene_file : string) (out : list string) : list string :=
  let out := print (newline +:+ rule) out in
  let out := print ("SCENE: " +:+ scene_file) out in
  print (rule +:+ newline) out.

(** Lines 171-174: one call of a component. *)
Definition print_event (out : list string) (ev : call_data) : list string :=
  let arg_str := match arg ev with
                 | Some a => "(" +:+ a +:+ ")"
                 | None => "()"
                 end in
  let out := print ("   " +:+ event ev) out in
  let out := print ("   " +:+ arrow +:+ " " +:+ default "?" (target_name ev)
                    +:+ "." +:+ default "?" (target_type ev)
                    +:+ "." +:+ default "?" (method ev) +:+ arg_str) out in
  print "" out.

(** Lines 162-176: the component [comp], numbered [i]. *)
Definition print_component (out : list string) (ic : nat * comp_data)
  : list string :=
  let '(i, comp) := ic in
  let go_name := default "Unknown" (gameobject comp) in
  let type_name := default "MonoBehaviour" (comp_type comp) in
  let out := print (pretty i +:+ ". GameObject: " +:+ go_name) out in
  let out := match comp_type comp with
             | Some _ => print ("   Component: " +:+ type_name) out
             | None => out
             end in
  let out := print "" out in
  let out := foldl print_event out (events comp) in
  print "" out.

(** The three scenes of line 179. *)
Definition scenes : list string :=
  ["collectionExample.unity"; "projectileExample.unity"; "puzzleExample.unity"].

Section Report.

(** [open(filename, 'r', encoding='utf-8')] and [f.readlines()] (lines
    10-11): the lines of the file, or the message of the exception that is
    raised. *)
Variable read : string → string + list string.

(** Lines 147-176. *)
Definition print_documentation (fuel : nat) (scene_file : string)
    (out : list string) : list string * completion :=
  let out := banner scene_file out in
  match read scene_file with
  | inl e => (out, Raised e)
  | inr lines =>
      match parse_scene fuel lines with
      | None => (out, Unfinished)
      | Some [] =>
          (print ("No UnityEvent wirings found." +:+ newline) out, Finished)
      | Some components =>
          let out := print ("Found " +:+ pretty (length components)
                            +:+ " component(s) with event wiring:"
                            +:+ newline) out in
          (foldl print_component out
             (zip (seq 1 (length components)) components), Finished)
      end
  end.

(** Lines 179-185: the loop over the scenes; it answers the output and
    whether the loop has come to its end. *)
Fixpoint process (fuel : nat) (todo : list string) (out : list string)
  : list string * bool :=
  match todo with
  | [] => (out, true)
  | scene :: todo' =>
      match print_documentation fuel scene out with
      | (out, Finished) => process fuel todo' out
      | (out, Raised e) =>
          process fuel todo'
            (print ("Error processing " +:+ scene +:+ ": " +:+ e) out)
      | (out, Unfinished) => (out, false)
      end
  end.

Definition main (fuel : nat) : list string * bool := process fuel scenes [].

(** The scene can be read and [parse_scene] does not return on it. *)
Definition blocked (scene : string) : bool :=
  match read scene with
  | inl _ => false
  | inr lines =>
      match parse_scene 1 lines with
      | None => true
      | Some _ => false
      end
  end.

(** What the run prints for a scene that is not blocked: the banner, and
    then the error message or the sentence of line 156. *)
Definition scene_log (scene : string) : list string :=
  banner scene []
  ++ [ match read scene with
       | inl e => "Error processing " +:+ scene +:+ ": " +:+ e
       | inr _ => "No UnityEvent wirings found." +:+ newline
       end ].

End Report.

(** A file system in which the first scene is missing and the other two
    hold the lines [second] and [third]. *)
Definition sample_files (second third : list string) (name : string)
  : string + list string :=
  if String.eqb name "collectionExample.unity"
  then inl "[Errno 2] No such file or directory: 'collectionExample.unity'"
  else if String.eqb name "projectileExample.unity"
  then inr second
  else inr third.

(** * Properties *)

(** ** The persistent-calls loop makes no progress *)

Section CallsLoop.
Context (gameobjects : gmap string string) (lines : list string).

Lemma method_extract_target l c :
  method (extract_target gameobjects l c) = method c.
Proof.
  unfold extract_target.
  destruct (Txt.contains _ l); [|done]. by destruct (fileID l).
Qed.

(** The lookahead starts on the list-item line itself, where its guard
    fails: it reads nothing and leaves [m] at [k]. *)
Lemma method_loop_list_item n m c :
  Txt.startswith (lines !!! m) list_item = true →
  method_loop lines n m c = (m, c).
Proof. intros Hm. destruct n as [|n]; simpl; [done|]. by rewrite Hm. Qed.

(** So the call record of a list item has at most a target name. *)
Lemma call_record_list_item event_name k :
  Txt.startswith (lines !!! k) list_item = true →
  call_record gameobjects lines event_name k
  = (k, extract_target gameobjects (lines !!! k)
          (CallData event_name None None None None)).
Proof. intros Hk. unfold call_record. by rewrite method_loop_list_item. Qed.

(** An iteration of the calls loop is the identity on its state. *)
Lemma call_step_list_item event_name k evs :
  Txt.startswith (lines !!! k) list_item = true →
  call_step gameobjects lines event_name k evs = (k, evs).
Proof.
  intros Hk. unfold call_step.
  rewrite call_record_list_item by done. simpl.
  by rewrite method_extract_target.
Qed.

Lemma calls_loop_stuck fuel event_name k evs :
  k < length lines →
  Txt.startswith (lines !!! k) list_item = true →
  calls_loop fuel gameobjects lines event_name k evs = None.
Proof.
  intros Hlen Hk. induction fuel as [|fuel IH]; simpl; [done|].
  apply Nat.ltb_lt in Hlen as ->. rewrite Hk. simpl.
  by rewrite call_step_list_item.
Qed.

Lemma calls_loop_done fuel event_name k evs :
  (k <? length lines) && Txt.startswith (lines !!! k) list_item = false →
  calls_loop (S fuel) gameobjects lines event_name k evs = Some evs.
Proof. intros Hk. simpl. by rewrite Hk. Qed.

(** Whatever the fuel, the loop never adds an event. *)
Lemma calls_loop_events fuel event_name k evs evs' :
  calls_loop fuel gameobjects lines event_name k evs = Some evs' →
  evs' = evs.
Proof.
  revert k evs. induction fuel as [|fuel IH]; intros k evs; simpl; [done|].
  destruct (_ && _) eqn:Hk; [|congruence].
  apply andb_true_iff in Hk as [Hlen Hk].
  rewrite call_step_list_item by done. apply IH.
Qed.

End CallsLoop.

(** ** When [parse_scene] returns *)

Lemma in_block_spec lines i j :
  in_block lines i j = true ↔
  ∀ j', i < j' ≤ j → Txt.startswith (lines !!! j') document_marker = false.
Proof.
  unfold in_block. rewrite forallb_forall. split.
  - intros H j' Hj'. apply negb_true_iff, H, in_seq. lia.
  - intros H j' Hj'%in_seq. apply negb_true_iff, H. lia.
Qed.

Section Termination.
Context (gameobjects : gmap string string) (lines : list string).

Lemma event_line_stuck fuel j evs :
  opens_calls lines j = true →
  event_line fuel gameobjects lines j evs = None.
Proof.
  unfold opens_calls. rewrite !andb_true_iff.
  intros [[[[Hev Hlen%Nat.ltb_lt] Hpc] Hc] Hk].
  unfold event_line. rewrite Hev, Hpc, Hc.
  assert ((j + 2 <? length lines) = true) as -> by (apply Nat.ltb_lt; lia).
  simpl. by apply calls_loop_stuck.
Qed.

Lemma event_line_done fuel j evs :
  opens_calls lines j = false →
  event_line (S fuel) gameobjects lines j evs = Some evs.
Proof.
  unfold opens_calls, event_line. intros H.
  destruct (event_shape _); [|done].
  destruct (j + 2 <? length lines) eqn:H2; [|done].
  destruct (Txt.contains "m_PersistentCalls:" _); [|done].
  destruct (Txt.contains "m_Calls:" _); [|done].
  simpl in *. rewrite !andb_true_r in H. by rewrite H.
Qed.

Lemma event_line_events fuel j evs evs' :
  event_line fuel gameobjects lines j evs = Some evs' → evs' = evs.
Proof.
  unfold event_line.
  repeat (match goal with |- context [if ?b then _ else _] => destruct b end);
    try congruence.
  apply calls_loop_events.
Qed.

Lemma events_loop_stuck fuel i j n j0 evs :
  i ≤ j0 ≤ j → j < j0 + n →
  in_block lines i j = true → opens_calls lines j = true →
  events_loop fuel gameobjects lines i n j0 evs = None.
Proof.
  intros Hj0 Hn Hblk Hopen. rewrite in_block_spec in Hblk.
  revert j0 evs Hj0 Hn.
  induction n as [|n IH]; intros j0 evs Hj0 Hn; [lia|]. simpl.
  assert ((i <? j0) && Txt.startswith (lines !!! j0) document_marker = false)
    as ->.
  { destruct (i <? j0) eqn:Hi; [|done]. apply Nat.ltb_lt in Hi.
    simpl. apply Hblk. lia. }
  destruct (event_line _ _ _ j0 evs) as [evs'|] eqn:Hstep; [|done].
  destruct (decide (j0 = j)) as [->|Hne].
  - by rewrite event_line_stuck in Hstep.
  - apply IH; lia.
Qed.

Lemma events_loop_done fuel i n j0 evs :
  i ≤ j0 →
  (∀ j', i < j' < j0 →
         Txt.startswith (lines !!! j') document_marker = false) →
  (∀ j, i ≤ j → in_block lines i j = true → opens_calls lines j = false) →
  events_loop (S fuel) gameobjects lines i n j0 evs = Some evs.
Proof.
  intros Hi Hbefore Hnone. revert j0 evs Hi Hbefore.
  induction n as [|n IH]; intros j0 evs Hi Hbefore; [done|].
  cbn [events_loop].
  destruct ((i <? j0) && _) eqn:Hbrk; [done|].
  assert (in_block lines i j0 = true) as Hblk.
  { apply in_block_spec. intros j' Hj'.
    destruct (decide (j' = j0)) as [->|]; [|apply Hbefore; lia].
    apply andb_false_iff in Hbrk as [Hlt%Nat.ltb_ge|]; [lia|done]. }
  rewrite event_line_done by auto.
  apply IH; [lia|]. intros j' Hj'.
  rewrite in_block_spec in Hblk. apply Hblk. lia.
Qed.

Lemma events_loop_events fuel i n j0 evs evs' :
  events_loop fuel gameobjects lines i n j0 evs = Some evs' → evs' = evs.
Proof.
  revert j0 evs. induction n as [|n IH]; intros j0 evs; simpl; [congruence|].
  destruct (_ && _); [congruence|].
  destruct (event_line _ _ _ j0 evs) as [e|] eqn:Hstep; [|done].
  apply event_line_events in Hstep as ->. apply IH.
Qed.

Lemma block_record_stuck fuel i j id :
  i ≤ j → in_block lines i j = true → opens_calls lines j = true →
  block_record fuel gameobjects lines i id = None.
Proof.
  intros Hij Hblk Hopen. unfold block_record.
  rewrite (events_loop_stuck fuel i j); [done|lia| |done|done].
  unfold opens_calls in Hopen. rewrite !andb_true_iff in Hopen.
  destruct Hopen as [[[[_ Hlen%Nat.ltb_lt] _] _] _]. lia.
Qed.

Lemma block_record_events fuel i id c :
  block_record fuel gameobjects lines i id = Some c → events c = [].
Proof.
  unfold block_record.
  destruct (events_loop _ _ _ _ _ _ _) as [evs|] eqn:Hev; [|done].
  apply events_loop_events in Hev as ->. by intros [= <-].
Qed.

Lemma second_pass_stuck fuel i j n i0 components :
  i0 ≤ i → i < i0 + n → hangs lines i j = true →
  second_pass fuel gameobjects lines n i0 components = None.
Proof.
  unfold hangs. rewrite !andb_true_iff.
  intros Hi0 Hn [[[Hhd%bool_decide_eq_true Hij%Nat.leb_le] Hblk] Hopen].
  revert i0 components Hi0 Hn.
  induction n as [|n IH]; intros i0 components Hi0 Hn; [lia|]. simpl.
  destruct (decide (i0 = i)) as [->|Hne].
  - destruct Hhd as [id ->]. by rewrite (block_record_stuck fuel i j).
  - destruct (monobehaviour_header (lines !!! i0)); [|apply IH; lia].
    destruct (block_record _ _ _ i0 _); [apply IH; lia|done].
Qed.

Lemma second_pass_done fuel n i0 components :
  (∀ i j, hangs lines i j = false) →
  second_pass (S fuel) gameobjects lines n i0 components = Some components.
Proof.
  intros Hnone. revert i0 components.
  induction n as [|n IH]; intros i0 components; [done|].
  cbn [second_pass].
  destruct (monobehaviour_header (lines !!! i0)) as [id|] eqn:Hhd; [|apply IH].
  unfold block_record.
  rewrite events_loop_done; [apply IH|lia|lia|].
  intros j Hj Hblk. specialize (Hnone i0 j). unfold hangs in Hnone.
  rewrite Hhd, Hblk in Hnone.
  apply Nat.leb_le in Hj. rewrite Hj in Hnone.
  rewrite bool_decide_eq_true_2 in Hnone by eauto. done.
Qed.

End Termination.

(** [parse_scene] never returns on a scene in which some behaviour block has
    an event with a call in its list. *)
Lemma parse_scene_hangs lines i j :
  hangs lines i j = true → ∀ fuel, parse_scene fuel lines = None.
Proof.
  intros H fuel. unfold parse_scene.
  apply (second_pass_stuck _ _ fuel i j); [lia| |done].
  unfold hangs, opens_calls in H. rewrite !andb_true_iff in H.
  destruct H as [[[_ Hij%Nat.leb_le] _] [[[[_ Hlen%Nat.ltb_lt] _] _] _]]. lia.
Qed.

(** On every other scene it returns, and what it returns is empty. *)
Lemma parse_scene_returns lines :
  (∀ i j, hangs lines i j = false) →
  ∀ fuel, parse_scene (S fuel) lines = Some [].
Proof. intros H fuel. by apply second_pass_done. Qed.


(** ** The argument window *)

Lemma arg_of_line_plain l :
  plain_arg_line l = true → arg_of_line l = None.
Proof.
  unfold plain_arg_line, all_fields, has_field. simpl.
  rewrite !andb_true_iff, !negb_true_iff.
  intros (Hi & Hf & Hs & Hb & _). unfold arg_of_line.
  by rewrite Hi, Hf, Hs, Hb.
Qed.

Section Arguments.
Context (lines : list string).

(** The window writes the argument only. *)
Lemma args_loop_fields n a c :
  event (args_loop lines n a c) = event c
  ∧ target_name (args_loop lines n a c) = target_name c
  ∧ target_type (args_loop lines n a c) = target_type c
  ∧ method (args_loop lines n a c) = method c.
Proof.
  revert a c. induction n as [|n IH]; intros a c; simpl; [done|].
  destruct (arg_of_line _) as [v|]; [|apply IH].
  destruct (IH (a + 1) (set_arg v c)) as (-> & -> & -> & ->). done.
Qed.

(** The argument after the window is the one of the last accepting line. *)
Lemma args_loop_arg n a c :
  arg (args_loop lines n a c)
  = from_option Some (arg c) (last (accepted_args lines a n)).
Proof.
  revert a c. induction n as [|n IH]; intros a c; [done|].
  cbn [args_loop]. rewrite IH. unfold accepted_args.
  rewrite Nat.add_1_r. cbn [seq omap list_omap].
  destruct (arg_of_line (lines !!! a)) as [v|]; [|done].
  rewrite last_cons. by destruct (last _).
Qed.

Lemma accepted_args_after a n p :
  p < a → only_field_at lines a n p = true → accepted_args lines a n = [].
Proof.
  unfold only_field_at, accepted_args.
  revert a. induction n as [|n IH]; intros a Hp Hwin; [done|].
  cbn [seq forallb omap list_omap] in *.
  apply andb_true_iff in Hwin as [Ha Hwin].
  apply orb_true_iff in Ha as [Ha%Nat.eqb_eq|Ha]; [lia|].
  rewrite arg_of_line_plain by done. apply IH; [lia|done].
Qed.

Lemma accepted_args_only a n p :
  a ≤ p < a + n → only_field_at lines a n p = true →
  accepted_args lines a n = option_list (arg_of_line (lines !!! p)).
Proof.
  revert a. induction n as [|n IH]; intros a Hp Hwin; [lia|].
  pose proof Hwin as Hall.
  unfold only_field_at, accepted_args in Hwin |- *.
  cbn [seq forallb omap list_omap] in *.
  apply andb_true_iff in Hwin as [Ha Hwin].
  destruct (decide (a = p)) as [->|Hne].
  - pose proof (accepted_args_after (S p) n p) as Hrest.
    unfold accepted_args, only_field_at in Hrest.
    rewrite Hrest by (done || lia). by destruct (arg_of_line _).
  - apply orb_true_iff in Ha as [Ha%Nat.eqb_eq|Ha]; [done|].
    rewrite arg_of_line_plain by done.
    apply (IH (S a)); [lia|done].
Qed.

Lemma args_loop_only a n p c :
  a ≤ p < a + n → only_field_at lines a n p = true →
  arg (args_loop lines n a c)
  = from_option Some (arg c) (arg_of_line (lines !!! p)).
Proof.
  intros Hp Hwin. rewrite args_loop_arg, (accepted_args_only a n p) by done.
  by destruct (arg_of_line _).
Qed.

End Arguments.

Lemma field_line_spec f l :
  field_line f l = true → ∀ g, has_field g l = field_eqb g f.
Proof.
  unfold field_line, all_fields. simpl. rewrite !andb_true_iff.
  intros (Hi & Hf & Hs & Hb & _) g.
  destruct g; by apply Bool.eqb_prop.
Qed.

Lemma arg_of_line_int l :
  field_line IntArgument l = true →
  arg_of_line l = Some ("int(" +:+ arg_value l +:+ ")").
Proof.
  intros H. pose proof (field_line_spec _ _ H IntArgument) as Hi.
  unfold has_field in Hi. simpl in Hi. unfold arg_of_line. by rewrite Hi.
Qed.

Lemma arg_of_line_float l :
  field_line FloatArgument l = true →
  arg_of_line l = if String.eqb (arg_value l) "0" then None
                  else Some ("float(" +:+ arg_value l +:+ ")").
Proof.
  intros H.
  pose proof (field_line_spec _ _ H IntArgument) as Hi.
  pose proof (field_line_spec _ _ H FloatArgument) as Hf.
  pose proof (field_line_spec _ _ H StringArgument) as Hs.
  pose proof (field_line_spec _ _ H BoolArgument) as Hb.
  unfold has_field in *. simpl in *. unfold arg_of_line.
  rewrite Hi, Hf, Hs, Hb. by destruct (String.eqb _ _).
Qed.

Lemma arg_of_line_string l :
  field_line StringArgument l = true →
  arg_of_line l = if Txt.nonempty (arg_value l)
                  then Some (dquote +:+ arg_value l +:+ dquote) else None.
Proof.
  intros H.
  pose proof (field_line_spec _ _ H IntArgument) as Hi.
  pose proof (field_line_spec _ _ H FloatArgument) as Hf.
  pose proof (field_line_spec _ _ H StringArgument) as Hs.
  unfold has_field in *. simpl in *. unfold arg_of_line.
  by rewrite Hi, Hf, Hs.
Qed.

Lemma arg_of_line_bool l :
  field_line BoolArgument l = true → arg_of_line l = Some (arg_value l).
Proof.
  intros H.
  pose proof (field_line_spec _ _ H IntArgument) as Hi.
  pose proof (field_line_spec _ _ H FloatArgument) as Hf.
  pose proof (field_line_spec _ _ H StringArgument) as Hs.
  pose proof (field_line_spec _ _ H BoolArgument) as Hb.
  unfold has_field in *. simpl in *. unfold arg_of_line.
  by rewrite Hi, Hf, Hs, Hb.
Qed.

Lemma accepted_args_none lines a n :
  none_accepted lines a n = true → accepted_args lines a n = [].
Proof.
  unfold none_accepted, accepted_args. revert a.
  induction n as [|n IH]; intros a H; [done|].
  cbn [seq forallb omap list_omap] in *.
  apply andb_true_iff in H as [Ha H].
  destruct (arg_of_line _); [done|]. by apply IH.
Qed.

Lemma accepted_args_split lines a n p :
  a ≤ p < a + n →
  accepted_args lines a n
  = accepted_args lines a (p - a)
    ++ option_list (arg_of_line (lines !!! p))
    ++ accepted_args lines (S p) (a + n - S p).
Proof.
  intros Hp. unfold accepted_args.
  replace n with ((p - a) + S (a + n - S p)) at 1 by lia.
  rewrite seq_app, omap_app. replace (a + (p - a)) with p by lia.
  cbn [seq omap list_omap]. by destruct (arg_of_line _).
Qed.

(** ** Claims on the argument selection *)

(** X14.  The argument window, run on its own (lines 115-130): the argument
    it leaves is the one of the last accepting line in file order, whatever
    the field: the last element of the arguments its lines select (the
    earlier argument when no line selects one).  In particular, when a line
    holding the bool field alone is followed by no accepting line, its
    literal is the argument, whatever argument the lines before it
    selected. *)
Theorem last_accepted_argument_wins (lines : list string) (a n : nat)
    (c : call_data) :
  arg (args_loop lines n a c)
  = from_option Some (arg c) (last (accepted_args lines a n))
  ∧ ∀ p, a ≤ p < a + n →
         field_line BoolArgument (lines !!! p) = true →
         none_accepted lines (S p) (a + n - S p) = true →
         arg (args_loop lines n a c) = Some (arg_value (lines !!! p)).
Proof.
  split; [apply args_loop_arg|].
  intros p Hp Hbool Hafter.
  rewrite args_loop_arg, (accepted_args_split lines a n p) by done.
  rewrite (accepted_args_none lines (S p)) by done.
  rewrite arg_of_line_bool by done. simpl.
  by rewrite ?app_nil_r, last_snoc.
Qed.

(** The int field comes first in the source's chain of tests and the bool
    field last; in the window the later line wins either way. *)
Lemma last_accepted_argument_wins_witness :
  arg (args_loop int_then_bool_window 6 0 no_call) = Some "1".
Proof.
  destruct (last_accepted_argument_wins int_then_bool_window 0 6 no_call)
    as [_ Hbool].
  apply (Hbool 4); [lia|vm_compute; reflexivity|vm_compute; reflexivity].
Defined.

Lemma bool_then_int_argument :
  arg (args_loop bool_then_int_window 4 0 no_call) = Some "int(7)".
Proof. vm_compute. reflexivity. Qed.

(** The float field is accepted unless its literal is [0]. *)
Lemma float_field_only lines a n p c :
  a ≤ p < a + n → only_field_at lines a n p = true →
  field_line FloatArgument (lines !!! p) = true →
  arg (args_loop lines n a c)
  = if String.eqb (arg_value (lines !!! p)) "0" then arg c
    else Some ("float(" +:+ arg_value (lines !!! p) +:+ ")").
Proof.
  intros Hp Hwin Hf. rewrite (args_loop_only lines a n p) by done.
  rewrite arg_of_line_float by done. by destruct (String.eqb _ _).
Qed.

Lemma float_zero_window_argument :
  arg (args_loop (float_window "0") 3 0 no_call) = None.
Proof. vm_compute. reflexivity. Qed.

Lemma float_nonzero_window_argument :
  arg (args_loop (float_window "2.5") 3 0 no_call) = Some "float(2.5)".
Proof. vm_compute. reflexivity. Qed.

(** C4, as the code has it.  In an argument window whose only argument
    field is at line [p]: an int field is accepted whatever its literal, and
    so is a bool field; a string field is accepted when its literal, once
    stripped, is not empty, and otherwise leaves the argument as it was. *)
Theorem default_valued_fields (lines : list string) (a n p : nat)
    (c : call_data) :
  a ≤ p < a + n → only_field_at lines a n p = true →
  (field_line IntArgument (lines !!! p) = true →
   arg (args_loop lines n a c)
   = Some ("int(" +:+ arg_value (lines !!! p) +:+ ")"))
  ∧ (field_line BoolArgument (lines !!! p) = true →
     arg (args_loop lines n a c) = Some (arg_value (lines !!! p)))
  ∧ (field_line StringArgument (lines !!! p) = true →
     arg (args_loop lines n a c)
     = if Txt.nonempty (arg_value (lines !!! p))
       then Some (dquote +:+ arg_value (lines !!! p) +:+ dquote)
       else arg c).
Proof.
  intros Hp Hwin. rewrite (args_loop_only lines a n p) by done.
  split; [|split]; intros Hf.
  - by rewrite arg_of_line_int.
  - by rewrite arg_of_line_bool.
  - rewrite arg_of_line_string by done. by destruct (Txt.nonempty _).
Qed.

(** An int field with literal [0] gives [int(0)], a bool field with literal
    [0] gives [0]. *)
Lemma default_valued_fields_witness :
  arg (args_loop int_zero_window 4 0 no_call) = Some "int(0)"
  ∧ arg (args_loop bool_default_window 3 0 no_call) = Some "0".
Proof.
  split.
  - destruct (default_valued_fields int_zero_window 0 4 2 no_call)
      as (Hint & _ & _); [lia|vm_compute; reflexivity|].
    apply Hint. vm_compute. reflexivity.
  - destruct (default_valued_fields bool_default_window 0 3 1 no_call)
      as (_ & Hbool & _); [lia|vm_compute; reflexivity|].
    apply Hbool. vm_compute. reflexivity.
Defined.

(** C4, as stated, fails: a string field at its default value, the empty
    string, is the only argument field of the window and no argument is
    selected. *)
Lemma string_default_not_accepted :
  only_field_at string_default_window 0 3 1 = true
  ∧ field_line StringArgument (string_default_window !!! 1) = true
  ∧ arg_value (string_default_window !!! 1) = ""
  ∧ arg (args_loop string_default_window 3 0 no_call) = None.
Proof. vm_compute. done. Qed.

(** ** Claims on termination and on retained calls *)

(** C1 (the code falls short of the claim).  On [calls_scene], a behaviour
    block with one event and one call, [parse_scene] returns for no fuel:
    an iteration of the persistent-calls loop at the list item, line 4,
    leaves the cursor and the events as they were. *)
Theorem parse_scene_calls_scene_never_returns :
  (∀ fuel, parse_scene fuel calls_scene = None)
  ∧ ∀ gameobjects evs,
      call_step gameobjects calls_scene "onOpen" 4 evs = (4, evs).
Proof.
  split.
  - apply (parse_scene_hangs calls_scene 0 1). vm_compute. reflexivity.
  - intros gameobjects evs. apply call_step_list_item.
    vm_compute. reflexivity.
Qed.

(** C2 (the code falls short of the claim).  [door_scene] has a complete
    event, persistent-calls and calls structure with one call whose method
    is [Open]; [parse_scene] returns for no fuel, so no call is retained. *)
Theorem parse_scene_door_scene_never_returns :
  ∀ fuel, parse_scene fuel door_scene = None.
Proof. apply (parse_scene_hangs door_scene 3 7). vm_compute. reflexivity. Qed.

(** C3 (the code falls short of the claim).  [float_scene] has one call
    whose only argument field is the float field with literal [2.5];
    [parse_scene] returns for no fuel, so no call with argument
    [float(2.5)] is retained. *)
Theorem parse_scene_float_scene_never_returns :
  ∀ fuel, parse_scene fuel float_scene = None.
Proof. apply (parse_scene_hangs float_scene 0 2). vm_compute. reflexivity. Qed.

(** C10 (the code falls short of the claim).  [int_bool_scene] has one call
    whose argument window holds the int field and then the bool field.  No
    argument is recorded for it, neither the last accepted one nor any
    other: [parse_scene] returns for no fuel, and the call record that the
    calls loop reads at the list item, line 5, has no argument and no
    method, because the method lookahead, and with it the argument window,
    reads no line.  The same holds of the call record of every list item of
    every input.  The window of that call, run on its own from the
    [m_Arguments:] line, would leave the bool literal. *)
Theorem parse_scene_int_bool_scene_never_returns :
  (∀ fuel, parse_scene fuel int_bool_scene = None)
  ∧ (∀ gameobjects,
       call_record gameobjects int_bool_scene "onOpen" 5
       = (5, CallData "onOpen" (Some (resolve gameobjects "100"))
               None None None))
  ∧ (∀ gameobjects lines event_name k,
       Txt.startswith (lines !!! k) list_item = true →
       arg (call_record gameobjects lines event_name k).2 = None)
  ∧ arg (args_loop int_bool_scene 4 7 (CallData "onOpen" None None None None))
    = Some "1".
Proof.
  split_and!.
  - apply (parse_scene_hangs int_bool_scene 0 2). vm_compute. reflexivity.
  - intros gameobjects. rewrite call_record_list_item by reflexivity.
    reflexivity.
  - intros gameobjects lines event_name k Hk.
    rewrite call_record_list_item by done. cbn [snd]. unfold extract_target.
    destruct (Txt.contains _ _); [|done]. by destruct (fileID _).
  - vm_compute. reflexivity.
Qed.

Section Dropped.
Context (gameobjects : gmap string string) (lines : list string).

Lemma method_line_method m c :
  Txt.contains "m_MethodName:" (lines !!! m) = false →
  method (method_line lines m c) = method c.
Proof.
  intros Hm. unfold method_line. rewrite Hm.
  destruct (Txt.contains "m_TargetAssemblyTypeName:" _); [done|].
  destruct (Txt.contains "m_Arguments:" _); [|done].
  apply args_loop_fields.
Qed.

Lemma method_loop_method n m c :
  forallb (λ m', negb (Txt.contains "m_MethodName:" (lines !!! m')))
          (seq m n) = true →
  method (method_loop lines n m c).2 = method c.
Proof.
  revert m c. induction n as [|n IH]; intros m c H; [done|].
  cbn [seq forallb] in H. apply andb_true_iff in H as [Hm%negb_true_iff H].
  cbn [method_loop]. destruct (Txt.startswith _ _); [done|].
  rewrite Nat.add_1_r, IH by done. by apply method_line_method.
Qed.

(** Without a method-name field in the lookahead no method is recovered. *)
Lemma call_record_no_method event_name k :
  no_method_name lines k = true →
  method (call_record gameobjects lines event_name k).2 = None.
Proof.
  intros H. unfold call_record.
  rewrite method_loop_method by done. by rewrite method_extract_target.
Qed.

End Dropped.

(** C8.  A call record for which no method name was recovered is dropped:
    the iteration of the calls loop that read it leaves the events of the
    component as they were, and the loop goes on from the cursor the
    lookahead reached with these same events. *)
Theorem call_without_method_dropped (gameobjects : gmap string string)
    (lines : list string) (event_name : string) (k : nat)
    (evs : list call_data) (fuel : nat) :
  method (call_record gameobjects lines event_name k).2 = None →
  (call_step gameobjects lines event_name k evs).2 = evs
  ∧ calls_loop (S fuel) gameobjects lines event_name k evs
    = if (k <? length lines) && Txt.startswith (lines !!! k) list_item
      then calls_loop fuel gameobjects lines event_name
             (call_record gameobjects lines event_name k).1 evs
      else Some evs.
Proof.
  intros Hm. cbn [calls_loop]. unfold call_step.
  destruct (call_record _ _ _ _) as [m c]. simpl in *. by rewrite Hm.
Qed.

Lemma call_without_method_dropped_witness :
  (call_step ∅ calls_scene "onOpen" 4 []).2 = [].
Proof.
  apply (call_without_method_dropped ∅ calls_scene "onOpen" 4 [] 0).
  vm_compute. reflexivity.
Defined.

(** ** Claims on the resolution of references *)

Lemma find_gameobject_first gameobjects lines n j d :
  d < n →
  forallb (λ q, negb (Txt.contains "m_GameObject: {fileID:" (lines !!! q)))
          (seq j d) = true →
  Txt.contains "m_GameObject: {fileID:" (lines !!! (j + d)) = true →
  find_gameobject gameobjects lines n j
  = resolve gameobjects <$> fileID (lines !!! (j + d)).
Proof.
  revert j d. induction n as [|n IH]; intros j d Hd Hbefore Hat; [lia|].
  cbn [find_gameobject]. destruct d as [|d].
  - rewrite Nat.add_0_r in Hat. rewrite Hat, Nat.add_0_r.
    by destruct (fileID _).
  - cbn [seq forallb] in Hbefore.
    apply andb_true_iff in Hbefore as [Hj%negb_true_iff Hbefore].
    rewrite Hj, Nat.add_1_r. rewrite (IH (S j) d); [|lia|done|].
    + by rewrite Nat.add_succ_comm.
    + by rewrite Nat.add_succ_comm.
Qed.

(** C5.  A reference whose fileID has no entry in the identifier mapping
    resolves to [Unknown-<id>]: the owner of a block, found at the first
    line of the window that holds an owner reference, and the target of a
    call, found on its list-item line, are both recorded under that name. *)
Theorem unknown_reference_placeholder (gameobjects : gmap string string)
    (id : string) :
  gameobjects !! id = None →
  resolve gameobjects id = "Unknown-" +:+ id
  ∧ (∀ lines n j d,
       d < n →
       forallb (λ q, negb (Txt.contains "m_GameObject: {fileID:"
                             (lines !!! q))) (seq j d) = true →
       Txt.contains "m_GameObject: {fileID:" (lines !!! (j + d)) = true →
       fileID (lines !!! (j + d)) = Some id →
       find_gameobject gameobjects lines n j = Some ("Unknown-" +:+ id))
  ∧ (∀ l c,
       Txt.contains "m_Target: {fileID:" l = true →
       fileID l = Some id →
       target_name (extract_target gameobjects l c)
       = Some ("Unknown-" +:+ id)).
Proof.
  intros Hid.
  assert (resolve gameobjects id = "Unknown-" +:+ id) as Hres
    by (unfold resolve; by rewrite Hid).
  split; [done|split].
  - intros lines n j d Hd Hbefore Hat Hfile.
    rewrite (find_gameobject_first _ _ n j d) by done.
    by rewrite Hfile, <- Hres.
  - intros l c Hl Hfile. unfold extract_target.
    by rewrite Hl, Hfile, <- Hres.
Qed.

Lemma unknown_reference_placeholder_witness :
  find_gameobject (build_gameobjects dangling_scene) dangling_scene 4 3
  = Some "Unknown-999".
Proof.
  destruct (unknown_reference_placeholder
              (build_gameobjects dangling_scene) "999") as (_ & Howner & _).
  - vm_compute. reflexivity.
  - apply (Howner dangling_scene 4 3 2); [lia|..]; vm_compute; reflexivity.
Defined.

(** ** Claims on the assembled output *)

Lemma assemble_empty components c :
  events c = [] → assemble components c = components.
Proof. unfold assemble. by intros ->. Qed.

Lemma assemble_nonempty components c :
  Forall (λ c', events c' ≠ []) components →
  Forall (λ c', events c' ≠ []) (assemble components c).
Proof.
  intros H. unfold assemble. destruct (events c) eqn:Hc; [done|].
  apply Forall_app. split; [done|]. apply Forall_singleton. by rewrite Hc.
Qed.

Lemma second_pass_nonempty fuel gameobjects lines n i components out :
  Forall (λ c, events c ≠ []) components →
  second_pass fuel gameobjects lines n i components = Some out →
  Forall (λ c, events c ≠ []) out.
Proof.
  revert i components. induction n as [|n IH]; intros i components Hacc; simpl.
  - by intros [= <-].
  - destruct (monobehaviour_header _); [|by apply IH].
    destruct (block_record _ _ _ _ _) as [c|]; [|done].
    apply IH. by apply assemble_nonempty.
Qed.

(** C6.  Every record of the sequence that [parse_scene] returns has a
    non-empty [events]. *)
Theorem retained_components_have_events (fuel : nat) (lines : list string)
    (components : list comp_data) :
  parse_scene fuel lines = Some components →
  Forall (λ c, events c ≠ []) components.
Proof. apply second_pass_nonempty. constructor. Qed.

Lemma retained_components_have_events_witness :
  Forall (λ c, events c ≠ []) ([] : list comp_data).
Proof.
  apply (retained_components_have_events 1 idle_scene).
  vm_compute. reflexivity.
Defined.

(** ** Claims on the identifier mapping *)

Lemma gameobject_header_nonempty l id :
  gameobject_header l = Some id → Txt.nonempty id = true.
Proof.
  unfold gameobject_header, Txt.match_lit_digits.
  destruct (String.prefix _ l); [|done].
  destruct (Txt.nonempty _) eqn:Hd; [|done]. by intros [= <-].
Qed.

Section FirstPass.
Implicit Types (g : gmap string string) (cur : option string).

Lemma first_pass_no_header g ls :
  forallb no_header ls = true →
  foldl first_pass_step (g, None) ls = (g, None).
Proof.
  induction ls as [|l ls IH]; simpl; [done|].
  intros [Hl Hls]%andb_true_iff. unfold no_header in Hl.
  destruct (gameobject_header l); [done|]. by apply IH.
Qed.

Lemma first_pass_before_name g id ls :
  forallb (λ l, no_header l && negb (holds_name l)) ls = true →
  foldl first_pass_step (g, Some id) ls = (g, Some id).
Proof.
  induction ls as [|l ls IH]; simpl; [done|].
  intros [[Hl Hn%negb_true_iff]%andb_true_iff Hls]%andb_true_iff.
  unfold no_header in Hl. unfold holds_name in Hn.
  destruct (gameobject_header l); [done|].
  rewrite Hn, andb_false_r. by apply IH.
Qed.

(** An object document records its name under its ID, whatever was
    pending before it. *)
Lemma first_pass_doc g cur d :
  well_formed_doc d = true →
  foldl first_pass_step (g, cur) (doc_lines d) = (record_name g d, None).
Proof.
  unfold well_formed_doc. rewrite !andb_true_iff, negb_true_iff.
  intros [[[[Hhd Hbefore] Hnm] Hname] Hafter].
  unfold doc_lines, record_name, doc_id. cbn [foldl first_pass_step].
  unfold no_header in Hhd, Hnm.
  destruct (gameobject_header (header d)) as [id|] eqn:Hid; [|done].
  rewrite foldl_app, first_pass_before_name by done.
  cbn [foldl first_pass_step default from_option].
  destruct (gameobject_header (name_field d)); [done|].
  unfold holds_name in Hname.
  rewrite Hname, (gameobject_header_nonempty _ _ Hid). cbn [andb].
  by apply first_pass_no_header.
Qed.

Lemma first_pass_docs g cur docs :
  forallb well_formed_doc docs = true →
  foldl first_pass_step (g, cur) (concat (doc_lines <$> docs))
  = (foldl record_name g docs,
     match docs with [] => cur | _ :: _ => None end).
Proof.
  revert g cur. induction docs as [|d docs IH]; intros g cur; [done|].
  cbn [forallb fmap list_fmap concat foldl].
  intros [Hd Hdocs]%andb_true_iff.
  rewrite foldl_app, first_pass_doc, IH by done. by destruct docs.
Qed.

Lemma build_gameobjects_scene preamble docs :
  forallb no_header preamble = true →
  forallb well_formed_doc docs = true →
  build_gameobjects (scene_of preamble docs) = foldl record_name ∅ docs.
Proof.
  intros Hpre Hdocs. unfold build_gameobjects, first_pass, scene_of.
  by rewrite foldl_app, first_pass_no_header, first_pass_docs.
Qed.

Lemma record_names_other g docs id :
  id ∉ doc_id <$> docs → foldl record_name g docs !! id = g !! id.
Proof.
  revert g. induction docs as [|d docs IH]; intros g Hid; [done|].
  cbn [foldl]. rewrite fmap_cons, not_elem_of_cons in Hid.
  destruct Hid as [Hne Hid]. rewrite IH by done.
  unfold record_name. by rewrite lookup_insert_ne.
Qed.

Lemma record_names_last g docs1 d docs2 :
  doc_id d ∉ doc_id <$> docs2 →
  foldl record_name g (docs1 ++ d :: docs2) !! doc_id d = Some (doc_name d).
Proof.
  intros Hid. rewrite foldl_app. cbn [foldl].
  rewrite record_names_other by done.
  unfold record_name. by rewrite lookup_insert_eq.
Qed.

Lemma record_names_dom g docs :
  dom (foldl record_name g docs)
  =@{gset string} dom g ∪ list_to_set (doc_id <$> docs).
Proof.
  revert g. induction docs as [|d docs IH]; intros g; simpl.
  - set_solver.
  - rewrite IH. unfold record_name. rewrite dom_insert_L. set_solver.
Qed.

Lemma record_names_size g docs :
  NoDup (doc_id <$> docs) →
  (∀ id, id ∈ doc_id <$> docs → g !! id = None) →
  size (foldl record_name g docs) = size g + length docs.
Proof.
  revert g. induction docs as [|d docs IH]; intros g Hnd Hfresh.
  - simpl. lia.
  - rewrite fmap_cons in Hnd, Hfresh. apply NoDup_cons in Hnd as [Hd Hnd].
    cbn [foldl length]. rewrite IH; [|done|].
    + unfold record_name. rewrite map_size_insert_None; [lia|].
      apply Hfresh. left.
    + intros id Hid. unfold record_name. rewrite lookup_insert_ne.
      * apply Hfresh. by right.
      * intros Heq. apply Hd. by rewrite Heq.
Qed.

End FirstPass.

(** C7.  On a scene made of object documents, each an object header
    followed by a name field before the next object header, the first pass
    builds a mapping whose keys are the IDs of the headers; with N
    documents of distinct IDs it has exactly N entries, each ID mapped to
    the name of its document; and where an ID recurs, the name of the last
    document with that ID is the one recorded. *)
Theorem first_pass_mapping (preamble : list string)
    (docs : list object_doc) :
  forallb no_header preamble = true →
  forallb well_formed_doc docs = true →
  dom (build_gameobjects (scene_of preamble docs))
  =@{gset string} list_to_set (doc_id <$> docs)
  ∧ (NoDup (doc_id <$> docs) →
     size (build_gameobjects (scene_of preamble docs)) = length docs
     ∧ ∀ d, d ∈ docs →
         build_gameobjects (scene_of preamble docs) !! doc_id d
         = Some (doc_name d))
  ∧ (∀ docs1 d docs2,
       docs = docs1 ++ d :: docs2 →
       doc_id d ∉ doc_id <$> docs2 →
       build_gameobjects (scene_of preamble docs) !! doc_id d
       = Some (doc_name d)).
Proof.
  intros Hpre Hdocs. rewrite build_gameobjects_scene by done.
  split; [|split].
  - rewrite record_names_dom. set_solver.
  - intros Hnd. split.
    + rewrite record_names_size; [by rewrite map_size_empty|done|done].
    + intros d [docs1 [docs2 ->]]%list_elem_of_split.
      apply record_names_last.
      rewrite fmap_app, fmap_cons in Hnd.
      apply NoDup_app in Hnd as (_ & _ & Hnd).
      by apply NoDup_cons in Hnd as [Hd _].
  - intros docs1 d docs2 -> Hid. by apply record_names_last.
Qed.

Lemma first_pass_mapping_witness :
  size (build_gameobjects (scene_of yaml_preamble [door_doc; key_doc])) = 2
  ∧ build_gameobjects (scene_of yaml_preamble [door_doc; key_doc; gate_doc])
    !! "100" = Some "Gate".
Proof.
  split.
  - destruct (first_pass_mapping yaml_preamble [door_doc; key_doc])
      as (_ & Hdistinct & _); [vm_compute; reflexivity..|].
    apply Hdistinct. vm_compute. repeat constructor; set_solver.
  - destruct (first_pass_mapping yaml_preamble [door_doc; key_doc; gate_doc])
      as (_ & _ & Hlast); [vm_compute; reflexivity..|].
    apply (Hlast [door_doc; key_doc] gate_doc []); [done|].
    apply not_elem_of_nil.
Defined.

(** ** Claims on the region of a block *)

Lemma next_marker_spec lines n j :
  j ≤ next_marker lines n j ≤ j + n
  ∧ (∀ q, j ≤ q < next_marker lines n j →
          Txt.startswith (lines !!! q) document_marker = false)
  ∧ (next_marker lines n j < j + n →
     Txt.startswith (lines !!! next_marker lines n j) document_marker = true).
Proof.
  revert j. induction n as [|n IH]; intros j; simpl.
  - repeat split; intros; lia.
  - destruct (Txt.startswith (lines !!! j) document_marker) eqn:Hj.
    + repeat split; [lia..|intros; lia|done].
    + destruct (IH (j + 1)) as ((Hlo & Hhi) & Hbefore & Hat).
      repeat split; [lia..| |].
      * intros q Hq. destruct (decide (q = j)) as [->|]; [done|].
        apply Hbefore. lia.
      * intros Hlt. apply Hat. lia.
Qed.

Lemma region_end_spec lines i :
  i < length lines →
  i < region_end lines i ≤ length lines
  ∧ (region_end lines i < length lines →
     Txt.startswith (lines !!! region_end lines i) document_marker = true).
Proof.
  intros Hi. unfold region_end.
  destruct (next_marker_spec lines (length lines - S i) (S i))
    as ((Hlo & Hhi) & _ & Hat).
  repeat split; [lia..|]. intros Hlt. apply Hat. lia.
Qed.

Section Locality.
Context (l1 l2 : list string) (N : nat).
Hypothesis Hagree : take N l1 = take N l2.






End Locality.

(** The scan of a block reads its lines by their distance from the header:
    on [lines] from the line [i] it does what it does on [drop i lines] from
    the line [0].  Every loop of the block is followed as it is written. *)
Section Shift.
Context (lines : list string) (i : nat).















End Shift.






(** * Further properties of the code *)

(** ** Text primitives *)

Lemma str_app_cons c s t : String c s +:+ t = String c (s +:+ t).
Proof. reflexivity. Qed.

Lemma str_app_nil_r s : s +:+ "" = s.
Proof. induction s as [|c s IH]; [done|]. by rewrite str_app_cons, IH. Qed.

Lemma str_app_assoc s t u : (s +:+ t) +:+ u = s +:+ t +:+ u.
Proof. induction s as [|c s IH]; [done|]. by rewrite !str_app_cons, IH. Qed.

Lemma str_rev_app_spec s t : String.rev_app s t = String.rev s +:+ t.
Proof.
  revert t. unfold String.rev.
  induction s as [|c s IH]; intros t; [done|]. cbn [String.rev_app].
  rewrite (IH (String c t)), (IH (String c "")). by rewrite str_app_assoc.
Qed.

Lemma str_rev_cons c s : String.rev (String c s) = String.rev s +:+ String c "".
Proof. unfold String.rev at 1. cbn [String.rev_app]. apply str_rev_app_spec. Qed.

Lemma str_rev_snoc s c : String.rev (s +:+ String c "") = String c (String.rev s).
Proof.
  induction s as [|d s IH]; [done|].
  by rewrite str_app_cons, !str_rev_cons, IH, str_app_cons.
Qed.

Lemma str_rev_involutive s : String.rev (String.rev s) = s.
Proof.
  induction s as [|c s IH]; [done|]. by rewrite str_rev_cons, str_rev_snoc, IH.
Qed.

Lemma str_rev_app_distr s t :
  String.rev (s +:+ t) = String.rev t +:+ String.rev s.
Proof.
  induction s as [|c s IH]; [by rewrite str_app_nil_r|].
  by rewrite str_app_cons, !str_rev_cons, IH, str_app_assoc.
Qed.

Lemma all_chars_app p s t :
  all_chars p (s +:+ t) = all_chars p s && all_chars p t.
Proof.
  induction s as [|c s IH]; [done|].
  rewrite str_app_cons. simpl. by rewrite IH, andb_assoc.
Qed.

Lemma all_chars_rev p s : all_chars p (String.rev s) = all_chars p s.
Proof.
  induction s as [|c s IH]; [done|].
  rewrite str_rev_cons, all_chars_app, IH. simpl.
  by rewrite andb_true_r, andb_comm.
Qed.

Lemma prefix_app p s :
  String.prefix p s = true ↔ ∃ t, s = p +:+ t.
Proof.
  revert s. induction p as [|c p IH]; intros s.
  - split; [by exists s|]. by destruct s.
  - destruct s as [|d s]; simpl.
    + split; [done|]. by intros [t Ht].
    + destruct (ascii_dec c d) as [->|Hne].
      * rewrite IH. split; intros [t Ht]; exists t.
        -- by rewrite str_app_cons, <- Ht.
        -- rewrite str_app_cons in Ht. by injection Ht.
      * split; [done|]. intros [t Ht]. rewrite str_app_cons in Ht.
        injection Ht as ? _. by destruct Hne.
Qed.

Lemma span_all p s : all_chars p (Txt.span p s) = true.
Proof.
  induction s as [|c s IH]; [done|]. simpl.
  destruct (p c) eqn:Hc; [|done]. simpl. by rewrite Hc, IH.
Qed.

Lemma span_drop p s :
  s = Txt.span p s +:+ Txt.drop (String.length (Txt.span p s)) s.
Proof.
  induction s as [|c s IH]; [done|]. simpl.
  destruct (p c); [|done]. simpl. by rewrite str_app_cons, <- IH.
Qed.

Lemma drop_app s t : Txt.drop (String.length s) (s +:+ t) = t.
Proof. induction s as [|c s IH]; [by destruct t|]. by rewrite str_app_cons. Qed.

Lemma lstrip_head s : head_space (Txt.lstrip s) = false.
Proof.
  induction s as [|c s IH]; [done|]. simpl.
  destruct (Txt.isspace c) eqn:Hc; [done|]. simpl. done.
Qed.

Lemma lstrip_id s : head_space s = false → Txt.lstrip s = s.
Proof. destruct s as [|c s]; [done|]. simpl. by intros ->. Qed.

Lemma lstrip_spaces a s :
  all_chars Txt.isspace a = true → Txt.lstrip (a +:+ s) = Txt.lstrip s.
Proof.
  induction a as [|c a IH]; [done|]. cbn [all_chars].
  intros [Hc Ha]%andb_true_iff. rewrite str_app_cons. simpl. rewrite Hc. auto.
Qed.

(** Stripping on the left keeps a last character that is not a space. *)
Lemma lstrip_snoc s c :
  Txt.isspace c = false →
  ∃ t, Txt.lstrip (s +:+ String c "") = t +:+ String c "".
Proof.
  intros Hc. induction s as [|d s [t IH]].
  - exists "". simpl. by rewrite Hc.
  - rewrite str_app_cons. simpl. destruct (Txt.isspace d).
    + by exists t.
    + by exists (String d s).
Qed.

(** Stripping on the right keeps a first character that is not a space. *)
Lemma rstrip_head c s :
  Txt.isspace c = false → ∃ u, Txt.rstrip (String c s) = String c u.
Proof.
  intros Hc. unfold Txt.rstrip. rewrite str_rev_cons.
  destruct (lstrip_snoc (String.rev s) c Hc) as [t ->].
  exists (String.rev t). by rewrite str_rev_snoc.
Qed.

Lemma rstrip_spaces s c b :
  Txt.isspace c = false → all_chars Txt.isspace b = true →
  Txt.rstrip ((s +:+ String c "") +:+ b) = s +:+ String c "".
Proof.
  intros Hc Hb. unfold Txt.rstrip.
  rewrite str_rev_app_distr, lstrip_spaces by by rewrite all_chars_rev.
  rewrite str_rev_snoc, lstrip_id by done.
  by rewrite <- str_rev_snoc, str_rev_involutive.
Qed.

Lemma rstrip_head_space s :
  head_space s = false → head_space (Txt.rstrip s) = false.
Proof.
  destruct s as [|c s]; [done|]. simpl. intros Hc.
  by destruct (rstrip_head c s Hc) as [u ->].
Qed.

Lemma rstrip_idemp s : Txt.rstrip (Txt.rstrip s) = Txt.rstrip s.
Proof.
  unfold Txt.rstrip. rewrite str_rev_involutive.
  by rewrite (lstrip_id (Txt.lstrip _)) by apply lstrip_head.
Qed.

Lemma strip_head_space s : head_space (Txt.strip s) = false.
Proof. apply rstrip_head_space, lstrip_head. Qed.

Lemma strip_idemp s : Txt.strip (Txt.strip s) = Txt.strip s.
Proof.
  unfold Txt.strip at 1.
  rewrite (lstrip_id (Txt.strip s)) by apply strip_head_space.
  unfold Txt.strip. apply rstrip_idemp.
Qed.

Lemma contains_spec x s :
  Txt.contains x s = true ↔ ∃ a b, s = a +:+ x +:+ b.
Proof.
  split.
  - induction s as [|c s IH]; cbn [Txt.contains].
    + rewrite orb_false_r. intros [t Ht]%prefix_app. by exists "", t.
    + intros [[t Ht]%prefix_app|Hs]%orb_true_iff; [by exists "", t|].
      destruct (IH Hs) as (a & b & ->). by exists (String c a), b.
  - intros (a & b & ->). induction a as [|c a IH].
    + assert (String.prefix x (x +:+ b) = true) as Hp
        by (apply prefix_app; by exists b).
      change ("" +:+ x +:+ b) with (x +:+ b).
      destruct (x +:+ b); cbn [Txt.contains]; by rewrite Hp.
    + rewrite str_app_cons. cbn [Txt.contains]. by rewrite IH, orb_true_r.
Qed.

Lemma contains_app_r p q s :
  Txt.contains (p +:+ q) s = true → Txt.contains q s = true.
Proof.
  rewrite !contains_spec. intros (a & b & ->).
  exists (a +:+ p), b. by rewrite !str_app_assoc.
Qed.

Lemma split_go_length sep skip cur s :
  1 ≤ length (Txt.split_go sep skip cur s).
Proof.
  revert skip cur. induction s as [|c s IH]; intros skip cur;
    cbn [Txt.split_go]; [simpl; lia|].
  destruct skip; [|apply IH].
  destruct (String.prefix sep (String c s)); [simpl; lia|]. apply IH.
Qed.

Lemma split_go_found sep cur s :
  Txt.nonempty sep = true → Txt.contains sep s = true →
  2 ≤ length (Txt.split_go sep 0 cur s).
Proof.
  intros Hsep. revert cur. induction s as [|c s IH]; intros cur.
  - destruct sep; done.
  - cbn [Txt.contains Txt.split_go].
    destruct (String.prefix sep (String c s)).
    + intros _. cbn [length].
      pose proof (split_go_length sep (String.length sep - 1) "" s). lia.
    + apply IH.
Qed.

Lemma split_go_absent sep cur s :
  Txt.contains sep s = false →
  Txt.split_go sep 0 cur s = [String.rev cur +:+ s].
Proof.
  revert cur. induction s as [|c s IH]; intros cur.
  - by rewrite str_app_nil_r.
  - cbn [Txt.contains Txt.split_go].
    intros [-> Hs]%orb_false_iff. rewrite IH by done.
    by rewrite str_rev_cons, str_app_assoc.
Qed.

(** ** What [parse_scene] returns *)

Lemma second_pass_output fuel gameobjects lines n i components out :
  second_pass fuel gameobjects lines n i components = Some out →
  out = components.
Proof.
  revert i components. induction n as [|n IH]; intros i components; simpl.
  - by intros [= <-].
  - destruct (monobehaviour_header _); [|apply IH].
    destruct (block_record _ _ _ _ _) as [c|] eqn:Hc; [|done].
    apply block_record_events in Hc.
    rewrite assemble_empty by done. apply IH.
Qed.

(** X1.  [parse_scene] returns, within some number of iterations of its
    calls loops, exactly on the scenes in which no behaviour block has, before
    its next [---] line, an event line followed by the persistent-calls and
    calls markers and a list item; one iteration is then enough. *)
Theorem parse_scene_returns_iff (lines : list string) :
  ((∃ fuel, is_Some (parse_scene fuel lines))
   ↔ ∀ i j, hangs lines i j = false)
  ∧ ((∃ fuel, is_Some (parse_scene fuel lines))
     ↔ parse_scene 1 lines = Some []).
Proof.
  assert ((∃ fuel, is_Some (parse_scene fuel lines))
          → ∀ i j, hangs lines i j = false) as Hnone.
  { intros [fuel [out Hout]] i j.
    destruct (hangs lines i j) eqn:Hh; [|done].
    by rewrite (parse_scene_hangs lines i j Hh fuel) in Hout. }
  split; split.
  - done.
  - intros H. exists 1. rewrite (parse_scene_returns lines H 0). eauto.
  - intros H. apply (parse_scene_returns lines (Hnone H) 0).
  - intros H. exists 1. rewrite H. eauto.
Qed.

(** X2.  Whenever [parse_scene] returns, it returns the empty list: no
    component is ever reported. *)
Theorem parse_scene_reports_nothing (fuel : nat) (lines : list string)
    (components : list comp_data) :
  parse_scene fuel lines = Some components → components = [].
Proof. apply second_pass_output. Qed.

Lemma parse_scene_reports_nothing_witness :
  default [] (parse_scene 1 idle_scene) = [].
Proof.
  apply (parse_scene_reports_nothing 1 idle_scene). vm_compute. reflexivity.
Defined.

(** ** Indices of [split] *)

(** X3.  Where the code writes [x.split(M)[1]] under the guard [M in x]
    (lines 21-22, 107-111), the index is in range: a text that holds a
    non-empty separator splits into at least two pieces; a text that does
    not hold it is its own single piece. *)
Theorem split_index_in_range (sep s : string) :
  Txt.nonempty sep = true →
  (Txt.contains sep s = true → 2 ≤ length (Txt.split sep s))
  ∧ (Txt.contains sep s = false → Txt.split sep s = [s]).
Proof.
  intros Hsep. split.
  - by apply split_go_found.
  - intros Hs. unfold Txt.split. by rewrite split_go_absent.
Qed.

Lemma split_index_in_range_witness :
  2 ≤ length (Txt.split "m_Name:" (ln "  m_Name: Door")).
Proof.
  destruct (split_index_in_range "m_Name:" (ln "  m_Name: Door")) as [H _].
  - reflexivity.
  - apply H. vm_compute. reflexivity.
Defined.

(** X4.  A line that holds one of the four argument fields holds a colon,
    so [lines[arg_line].split(':')[1]] (lines 118-128) is in range. *)
Theorem arg_value_index_in_range (f : arg_field) (l : string) :
  has_field f l = true → 2 ≤ length (Txt.split ":" l).
Proof.
  intros Hf. apply split_go_found; [done|].
  unfold has_field in Hf.
  destruct f; simpl in Hf;
    [apply (contains_app_r "m_IntArgument")
    |apply (contains_app_r "m_FloatArgument")
    |apply (contains_app_r "m_StringArgument")
    |apply (contains_app_r "m_BoolArgument")]; exact Hf.
Qed.

Lemma arg_value_index_in_range_witness :
  2 ≤ length (Txt.split ":" (ln "          m_BoolArgument: 1")).
Proof.
  apply (arg_value_index_in_range BoolArgument). vm_compute. reflexivity.
Defined.

(** ** Entries of the identifier mapping *)

Lemma gameobject_header_digits l id :
  gameobject_header l = Some id → all_chars Txt.isdigit id = true.
Proof.
  unfold gameobject_header, Txt.match_lit_digits.
  destruct (String.prefix _ l); [|done].
  destruct (Txt.nonempty _); [|done]. intros [= <-]. apply span_all.
Qed.

Lemma recorded_from_snoc lines x id name :
  recorded_from lines id name → recorded_from (lines ++ [x]) id name.
Proof.
  intros (before & h & mid & l & after & -> & Hh & Hmid & Hl & Hn & ->).
  exists before, h, mid, l, (after ++ [x]).
  split_and!; try done.
  by rewrite <- !app_assoc, <- !app_comm_cons, <- app_assoc.
Qed.

Lemma first_pass_snoc lines x :
  first_pass (lines ++ [x]) = first_pass_step (first_pass lines) x.
Proof. unfold first_pass. by rewrite foldl_app. Qed.

Lemma first_pass_invariant lines :
  (∀ id name, (first_pass lines).1 !! id = Some name →
              recorded_from lines id name)
  ∧ (∀ id, (first_pass lines).2 = Some id → pending_from lines id).
Proof.
  induction lines as [|x lines [IHg IHc]] using rev_ind.
  - split; [|done]. intros id name. unfold first_pass. simpl.
    by rewrite lookup_empty.
  - rewrite first_pass_snoc.
    destruct (first_pass lines) as [g cur]. simpl in IHg, IHc.
    unfold first_pass_step.
    destruct (gameobject_header x) as [id'|] eqn:Hx; simpl.
    { split.
      - intros id name Hid. by apply recorded_from_snoc, IHg.
      - intros id [= <-]. by exists lines, x, []. }
    destruct cur as [id'|]; simpl.
    2:{ split; [|done].
        intros id name Hid. by apply recorded_from_snoc, IHg. }
    destruct (IHc id' eq_refl) as (before & h & mid & -> & Hh & Hmid).
    rewrite (gameobject_header_nonempty _ _ Hh). cbn [andb].
    destruct (Txt.contains "m_Name:" x) eqn:Hn; simpl.
    + split; [|done]. intros id name.
      destruct (decide (id' = id)) as [->|Hne].
      * rewrite lookup_insert_eq. intros [= <-].
        exists before, h, mid, x, []. split_and!; try done.
        -- by rewrite <- app_assoc, <- app_comm_cons.
        -- unfold no_header. by rewrite Hx.
      * rewrite lookup_insert_ne by done.
        intros Hid. by apply recorded_from_snoc, IHg.
    + split.
      * intros id name Hid. by apply recorded_from_snoc, IHg.
      * intros id [= <-]. exists before, h, (mid ++ [x]). split_and!.
        -- by rewrite <- app_assoc, <- app_comm_cons.
        -- done.
        -- rewrite forallb_app, Hmid. simpl.
           unfold plain_line, no_header, holds_name. by rewrite Hx, Hn.
Qed.

(** X5.  Every entry of the identifier mapping comes from the input: its
    key is the non-empty digit string of an object header, and its value is
    the stripped name field of the first line with a name field after that
    header, no other object header standing in between; the value has no
    leading or trailing white space. *)
Theorem gameobjects_entries_sound (lines : list string) (id name : string) :
  build_gameobjects lines !! id = Some name →
  recorded_from lines id name
  ∧ Txt.nonempty id = true
  ∧ all_chars Txt.isdigit id = true
  ∧ Txt.strip name = name.
Proof.
  intros Hid. destruct (first_pass_invariant lines) as [Hg _].
  pose proof (Hg id name Hid) as Hrec. split; [done|].
  destruct Hrec as (before & h & mid & l & after & _ & Hh & _ & _ & _ & ->).
  split_and!.
  - by apply (gameobject_header_nonempty h).
  - by apply (gameobject_header_digits h).
  - apply strip_idemp.
Qed.

Lemma gameobjects_entries_sound_witness :
  recorded_from door_scene "100" "Door".
Proof.
  apply (gameobjects_entries_sound door_scene "100" "Door").
  vm_compute. reflexivity.
Defined.

(** ** References to defined objects *)

(** X6.  A reference to an object that the scene defines resolves to the
    name of that object, wherever the object stands in the file, before or
    after the referring line: on a scene made of object documents, a target
    reference, and the first owner reference of a window, with the ID of a
    document that is the last one with that ID, are recorded under the name
    of that document. *)
Theorem reference_resolves_to_name (preamble : list string)
    (docs docs1 docs2 : list object_doc) (d : object_doc) (l : string) :
  forallb no_header preamble = true →
  forallb well_formed_doc docs = true →
  docs = docs1 ++ d :: docs2 →
  doc_id d ∉ doc_id <$> docs2 →
  fileID l = Some (doc_id d) →
  (∀ c, Txt.contains "m_Target: {fileID:" l = true →
        target_name
          (extract_target (build_gameobjects (scene_of preamble docs)) l c)
        = Some (doc_name d))
  ∧ (∀ lines n j k,
       k < n →
       forallb (λ q, negb (Txt.contains "m_GameObject: {fileID:"
                             (lines !!! q))) (seq j k) = true →
       Txt.contains "m_GameObject: {fileID:" (lines !!! (j + k)) = true →
       lines !!! (j + k) = l →
       find_gameobject (build_gameobjects (scene_of preamble docs)) lines n j
       = Some (doc_name d)).
Proof.
  intros Hpre Hdocs -> Hlast Hfile.
  assert (resolve (build_gameobjects (scene_of preamble (docs1 ++ d :: docs2)))
            (doc_id d) = doc_name d) as Hres.
  { unfold resolve. rewrite build_gameobjects_scene by done.
    by rewrite record_names_last. }
  split.
  - intros c Hl. unfold extract_target. by rewrite Hl, Hfile, Hres.
  - intros lines n j k Hk Hbefore Hat Hl.
    rewrite (find_gameobject_first _ _ n j k) by done.
    by rewrite Hl, Hfile, <- Hres.
Qed.

Lemma reference_resolves_to_name_witness :
  find_gameobject
    (build_gameobjects (scene_of block_preamble [key_doc; door_doc]))
    (scene_of block_preamble [key_doc; door_doc]) 20 0
  = Some "Door".
Proof.
  destruct (reference_resolves_to_name block_preamble
              [key_doc; door_doc] [key_doc] [] door_doc
              (ln "  m_GameObject: {fileID: 100}")) as [_ Howner].
  - reflexivity.
  - vm_compute. reflexivity.
  - reflexivity.
  - apply not_elem_of_nil.
  - vm_compute. reflexivity.
  - apply (Howner _ 20 0 2); [lia|vm_compute; reflexivity..].
Defined.

(** ** The owner and the class name of a block *)

Lemma window_cons lines j n :
  window lines j (S n) = (lines !!! j) :: window lines (j + 1) n.
Proof. unfold window. by rewrite Nat.add_1_r. Qed.

(** X7.  The owner of a block is decided by the first line of the window
    that holds an owner reference, and by that line alone: its ID, resolved,
    when it has one, and no owner at all when it has none, whatever the
    later lines hold; a window without such a line gives no owner. *)
Theorem owner_from_first_reference (gameobjects : gmap string string)
    (lines : list string) (n j : nat) :
  find_gameobject gameobjects lines n j
  = match List.find owner_line (window lines j n) with
    | Some l => resolve gameobjects <$> fileID l
    | None => None
    end.
Proof.
  revert j. induction n as [|n IH]; intros j; [done|].
  rewrite window_cons. cbn [find_gameobject List.find]. unfold owner_line at 1.
  destruct (Txt.contains _ (lines !!! j)); [|apply IH].
  by destruct (fileID _).
Qed.

Lemma broken_owner_hides_later_reference :
  find_gameobject ∅ broken_owner_scene 3 0 = None.
Proof. vm_compute. reflexivity. Qed.

Lemma letter_not_space c : Txt.isletter c = true → Txt.isspace c = false.
Proof. destruct c as [[] [] [] [] [] [] [] []]; by vm_compute. Qed.

Lemma letter_not_dash c : Txt.isletter c = true → c ≠ "-"%char.
Proof. destruct c as [[] [] [] [] [] [] [] []]; by vm_compute. Qed.

Lemma class_shape_inv l :
  class_shape l = true →
  ∃ c r, l = String " " (String " " (String c r)) ∧ Txt.isletter c = true.
Proof.
  destruct l as [|a l]; [done|].
  destruct (ascii_dec a " ") as [->|Ha];
    [|by destruct a as [[] [] [] [] [] [] [] []]].
  destruct l as [|b l]; [done|].
  destruct (ascii_dec b " ") as [->|Hb];
    [|by destruct b as [[] [] [] [] [] [] [] []]].
  destruct l as [|c r]; [done|]. simpl. intros Hc. by exists c, r.
Qed.

(** A line of class shape, stripped, is not empty and starts with its
    letter. *)
Lemma class_shape_strip l :
  class_shape l = true →
  Txt.nonempty (Txt.strip l) = true
  ∧ Txt.startswith (Txt.strip l) "-" = false.
Proof.
  intros (c & r & -> & Hc)%class_shape_inv. unfold Txt.strip.
  assert (Txt.lstrip (String " " (String " " (String c r))) = String c r) as ->.
  { simpl. by rewrite (letter_not_space c Hc). }
  destruct (rstrip_head c r (letter_not_space c Hc)) as [u ->].
  split; [done|]. unfold Txt.startswith.
  destruct (String.prefix "-" (String c u)) eqn:Hp; [|done].
  apply prefix_app in Hp as [t Ht]. rewrite str_app_cons in Ht.
  injection Ht as Hc' _. subst c. by destruct (letter_not_dash _ Hc).
Qed.

Lemma find_type_first lines n j :
  find_type lines n j = Txt.strip <$> List.find type_line (window lines j n).
Proof.
  revert j. induction n as [|n IH]; intros j; [done|].
  rewrite window_cons. cbn [find_type List.find]. cbn zeta.
  unfold type_line at 1.
  destruct (class_shape (lines !!! j)) eqn:Hshape; [|apply IH].
  destruct (class_shape_strip _ Hshape) as [-> ->].
  cbn [andb negb].
  destruct (negb _ && negb _); [done|apply IH].
Qed.

(** X8.  The class name of a block is the first line of the window of 50
    lines that has the class shape, no colon and no [m_] prefix, stripped:
    the tests of line 68 and line 73 never reject it. *)
Theorem class_name_is_first_type_line (fuel : nat)
    (gameobjects : gmap string string) (lines : list string) (i : nat)
    (id : string) (c : comp_data) :
  block_record fuel gameobjects lines i id = Some c →
  comp_type c
  = Txt.strip <$> List.find type_line
                    (window lines i (min (i + 50) (length lines) - i)).
Proof.
  unfold block_record.
  destruct (events_loop _ _ _ _ _ _ _); [|done]. intros [= <-]. simpl.
  rewrite find_type_first.
  destruct (List.find _ _) as [t|] eqn:Ht; [|done]. simpl.
  apply find_some in Ht as [_ Ht]. unfold type_line in Ht.
  apply andb_true_iff in Ht as [[Hshape _]%andb_true_iff _].
  by destruct (class_shape_strip _ Hshape) as [-> _].
Qed.

Lemma class_name_is_first_type_line_witness :
  Some "Opener" = Txt.strip <$> List.find type_line (window typed_scene 0 5).
Proof.
  apply (class_name_is_first_type_line 1 ∅ typed_scene 0 "200"
           (CompData "200" [] None (Some "Opener"))).
  vm_compute. reflexivity.
Defined.

(** ** Objects that are recorded *)

Lemma first_pass_app a b :
  first_pass (a ++ b) = foldl first_pass_step (first_pass a) b.
Proof. unfold first_pass. by rewrite foldl_app. Qed.

(** Plain lines leave the mapping and the pending ID as they are. *)
Lemma first_pass_pending g id mid :
  forallb plain_line mid = true →
  foldl first_pass_step (g, Some id) mid = (g, Some id).
Proof.
  induction mid as [|x mid IH]; [done|]. cbn [forallb foldl].
  intros [Hx Hmid]%andb_true_iff.
  unfold plain_line, no_header, holds_name in Hx.
  apply andb_true_iff in Hx as [Hh Hn]. apply negb_true_iff in Hn.
  assert (first_pass_step (g, Some id) x = (g, Some id)) as ->.
  { unfold first_pass_step. destruct (gameobject_header x); [done|].
    by rewrite Hn, andb_false_r. }
  by apply IH.
Qed.

(** Lines without an object header of the ID [id] leave its entry as it
    is, when [id] is not pending. *)
Lemma first_pass_untouched id after g cur :
  forallb (other_object id) after = true → cur ≠ Some id →
  (foldl first_pass_step (g, cur) after).1 !! id = g !! id.
Proof.
  revert g cur. induction after as [|x after IH]; intros g cur; [done|].
  cbn [forallb foldl]. intros [Hx Hafter]%andb_true_iff Hcur.
  unfold other_object in Hx. unfold first_pass_step.
  destruct (gameobject_header x) as [id'|].
  - apply IH; [done|]. intros [= ->]. by rewrite String.eqb_refl in Hx.
  - destruct cur as [id'|]; [|by apply IH].
    destruct (Txt.nonempty id' && Txt.contains "m_Name:" x).
    + rewrite IH by done. apply lookup_insert_ne. congruence.
    + by apply IH.
Qed.

(** X9.  An object header is recorded under the name of the next line that
    holds a name field, when no other object header stands in between,
    whatever else does: the documents of other kinds that start in between
    are no barrier.  The entry stays as long as no later object header
    carries the same ID. *)
Theorem named_object_is_recorded (before mid after : list string)
    (h l id : string) :
  gameobject_header h = Some id →
  forallb plain_line mid = true →
  no_header l = true →
  holds_name l = true →
  forallb (other_object id) after = true →
  build_gameobjects (before ++ h :: mid ++ l :: after) !! id
  = Some (Txt.strip (Txt.piece 1 "m_Name:" l)).
Proof.
  intros Hh Hmid Hl Hn Hafter. unfold build_gameobjects.
  rewrite first_pass_app. destruct (first_pass before) as [g cur].
  cbn [foldl].
  assert (first_pass_step (g, cur) h = (g, Some id)) as ->.
  { unfold first_pass_step. by rewrite Hh. }
  rewrite foldl_app, first_pass_pending by done. cbn [foldl].
  assert (first_pass_step (g, Some id) l
          = (<[id := Txt.strip (Txt.piece 1 "m_Name:" l)]> g, None)) as ->.
  { unfold first_pass_step. unfold no_header in Hl.
    destruct (gameobject_header l); [done|]. unfold holds_name in Hn.
    by rewrite (gameobject_header_nonempty _ _ Hh), Hn. }
  rewrite first_pass_untouched by done. apply lookup_insert_eq.
Qed.

Lemma named_object_is_recorded_witness :
  build_gameobjects nameless_scene !! "100" = Some "Hinge".
Proof.
  apply (named_object_is_recorded []
           [ln "GameObject:"; ln "  m_Layer: 0"; ln "--- !u!114 &101";
            ln "MonoBehaviour:"]
           [ln "--- !u!1 &102"; ln "GameObject:"; ln "  m_Name: Key"]
           (ln "--- !u!1 &100") (ln "  m_Name: Hinge") "100");
    vm_compute; reflexivity.
Defined.

(** ** The name of an event *)

Lemma word_not_space c : Txt.isword c = true → Txt.isspace c = false.
Proof. destruct c as [[] [] [] [] [] [] [] []]; by vm_compute. Qed.

Lemma word_not_colon c : Txt.isword c = true → Ascii.eqb ":" c = false.
Proof. destruct c as [[] [] [] [] [] [] [] []]; by vm_compute. Qed.

Lemma lstrip_char_word s :
  all_chars Txt.isword s = true → Txt.lstrip_char ":" s = s.
Proof.
  destruct s as [|c s]; [done|]. cbn [all_chars Txt.lstrip_char].
  intros [Hc _]%andb_true_iff. by rewrite (word_not_colon c Hc).
Qed.

Lemma event_shape_inv l :
  event_shape l = true →
  ∃ w, Txt.nonempty w = true ∧ all_chars Txt.isword w = true
       ∧ (l = "  " +:+ w +:+ ":" ∨ l = "  " +:+ w +:+ ":" +:+ newline).
Proof.
  unfold event_shape. destruct (String.prefix "  " l) eqn:Hp; [|done].
  apply prefix_app in Hp as [rest ->].
  change (Txt.drop 2 ("  " +:+ rest)) with rest. cbn zeta.
  intros [Hw Htail]%andb_true_iff. exists (Txt.span Txt.isword rest).
  split_and!; [done|apply span_all|].
  pose proof (span_drop Txt.isword rest) as Hrest.
  apply orb_true_iff in Htail as [Ht|Ht]; apply String.eqb_eq in Ht;
    rewrite Ht in Hrest; [left|right]; by rewrite <- Hrest.
Qed.

Lemma strip_event_line w b :
  Txt.nonempty w = true → all_chars Txt.isword w = true →
  all_chars Txt.isspace b = true →
  Txt.strip ("  " +:+ w +:+ ":" +:+ b) = w +:+ ":".
Proof.
  intros Hne Hw Hb. unfold Txt.strip.
  rewrite (lstrip_spaces "  ") by done.
  rewrite lstrip_id.
  - rewrite <- str_app_assoc. by apply rstrip_spaces.
  - destruct w as [|c w]; [done|]. rewrite str_app_cons. cbn [head_space].
    cbn [all_chars] in Hw. apply andb_true_iff in Hw as [Hc _].
    by apply word_not_space.
Qed.

Lemma rstrip_char_word w :
  all_chars Txt.isword w = true → Txt.rstrip_char ":" (w +:+ ":") = w.
Proof.
  intros Hw. unfold Txt.rstrip_char. rewrite str_rev_snoc.
  cbn [Txt.lstrip_char]. change (Ascii.eqb ":" ":") with true. cbn iota.
  rewrite lstrip_char_word by by rewrite all_chars_rev.
  apply str_rev_involutive.
Qed.

(** X10.  An event line is two spaces, an identifier and a colon, with or
    without a final newline, and the event name recorded for it (line 87)
    is that identifier, whole and with nothing around it. *)
Theorem event_name_is_identifier (l : string) :
  event_shape l = true →
  ∃ w, Txt.nonempty w = true
       ∧ all_chars Txt.isword w = true
       ∧ (l = "  " +:+ w +:+ ":" ∨ l = "  " +:+ w +:+ ":" +:+ newline)
       ∧ Txt.rstrip_char ":" (Txt.strip l) = w.
Proof.
  intros (w & Hne & Hw & Hl)%event_shape_inv. exists w.
  split_and!; try done.
  destruct Hl as [->| ->].
  - change ("  " +:+ w +:+ ":") with ("  " +:+ w +:+ ":" +:+ "").
    rewrite strip_event_line by done. by apply rstrip_char_word.
  - rewrite strip_event_line by done. by apply rstrip_char_word.
Qed.

Lemma event_name_is_identifier_witness :
  ∃ w, Txt.nonempty w = true
       ∧ all_chars Txt.isword w = true
       ∧ (ln "  onOpen:" = "  " +:+ w +:+ ":"
          ∨ ln "  onOpen:" = "  " +:+ w +:+ ":" +:+ newline)
       ∧ Txt.rstrip_char ":" (Txt.strip (ln "  onOpen:")) = w.
Proof. apply (event_name_is_identifier (ln "  onOpen:")). reflexivity. Defined.

(** ** The literal of an argument field *)

Lemma prefix_colon c s : String.prefix ":" (String c s) = Ascii.eqb c ":".
Proof.
  cbn [String.prefix]. destruct (ascii_dec ":" c) as [<-|Hne].
  - by destruct s.
  - symmetry. apply Ascii.eqb_neq. congruence.
Qed.

Lemma contains_colon s :
  all_chars not_colon s = true → Txt.contains ":" s = false.
Proof.
  induction s as [|c s IH]; [done|]. cbn [all_chars Txt.contains].
  intros [Hc Hs]%andb_true_iff. rewrite prefix_colon, (IH Hs).
  unfold not_colon in Hc. apply negb_true_iff in Hc. by rewrite Hc.
Qed.

(** Splitting at colons cuts at the first colon. *)
Lemma split_go_colon cur pre v :
  all_chars not_colon pre = true →
  Txt.split_go ":" 0 cur (pre +:+ ":" +:+ v)
  = (String.rev cur +:+ pre) :: Txt.split_go ":" 0 "" v.
Proof.
  revert cur. induction pre as [|c pre IH]; intros cur.
  - intros _. change ("" +:+ ":" +:+ v) with (String ":" v).
    cbn [Txt.split_go]. rewrite prefix_colon.
    change (Ascii.eqb ":" ":") with true. cbn iota.
    by rewrite str_app_nil_r.
  - cbn [all_chars]. intros [Hc Hpre]%andb_true_iff.
    rewrite str_app_cons. cbn [Txt.split_go]. rewrite prefix_colon.
    unfold not_colon in Hc. apply negb_true_iff in Hc. rewrite Hc.
    rewrite IH by done. by rewrite str_rev_cons, str_app_assoc.
Qed.

(** X11.  The literal of an argument field (lines 118-128) is the text
    between the first and the second colon of its line, stripped; with one
    colon only, it is the text after it.  So the text of a string argument
    is cut at its first colon. *)
Theorem argument_literal_between_colons (pre v : string) :
  all_chars not_colon pre = true →
  all_chars not_colon v = true →
  arg_value (pre +:+ ":" +:+ v) = Txt.strip v
  ∧ ∀ rest, arg_value (pre +:+ ":" +:+ v +:+ ":" +:+ rest) = Txt.strip v.
Proof.
  intros Hpre Hv. unfold arg_value, Txt.piece, Txt.split. split.
  - rewrite split_go_colon by done.
    by rewrite split_go_absent by by apply contains_colon.
  - intros rest. by rewrite !split_go_colon by done.
Qed.

Lemma argument_literal_between_colons_witness :
  arg_value (ln "          m_StringArgument: a:b") = "a".
Proof.
  destruct (argument_literal_between_colons
              "          m_StringArgument" " a") as [_ H];
    [reflexivity..|].
  exact (H (ln "b")).
Defined.

(** ** The report *)

(** One iteration of the calls loops decides: more fuel changes nothing. *)
Lemma parse_scene_fuel fuel lines :
  parse_scene (S fuel) lines = parse_scene 1 lines.
Proof.
  assert (∀ f, is_Some (parse_scene f lines) →
               ∀ i j, hangs lines i j = false) as Hnone.
  { intros f [o Ho] i j. destruct (hangs lines i j) eqn:Hh; [|done].
    by rewrite (parse_scene_hangs lines i j Hh f) in Ho. }
  destruct (parse_scene 1 lines) as [o|] eqn:H1.
  - assert (∀ i j, hangs lines i j = false) as Hh
      by (apply (Hnone 1); by rewrite H1).
    rewrite (parse_scene_returns lines Hh 0) in H1.
    by rewrite (parse_scene_returns lines Hh fuel).
  - destruct (parse_scene (S fuel) lines) as [o|] eqn:Hf; [|done].
    assert (∀ i j, hangs lines i j = false) as Hh
      by (apply (Hnone (S fuel)); by rewrite Hf).
    by rewrite (parse_scene_returns lines Hh 0) in H1.
Qed.

Lemma print_documentation_cases read fuel scene_file out :
  1 ≤ fuel →
  print_documentation read fuel scene_file out
  = match read scene_file with
    | inl e => (banner scene_file out, Raised e)
    | inr lines =>
        match parse_scene 1 lines with
        | Some _ =>
            (print ("No UnityEvent wirings found." +:+ newline)
               (banner scene_file out), Finished)
        | None => (banner scene_file out, Unfinished)
        end
    end.
Proof.
  intros Hfuel. destruct fuel as [|fuel]; [lia|]. unfold print_documentation.
  destruct (read scene_file) as [e|lines]; [done|].
  rewrite parse_scene_fuel. destruct (parse_scene 1 lines) as [o|] eqn:H; [|done].
  unfold parse_scene in H. by apply second_pass_output in H as ->.
Qed.

(** X12.  [print_documentation] never prints a report of wirings: after
    the banner it either fails to read the file, or prints the sentence of
    line 156 and returns, or never returns; and a call that has not returned
    after one iteration of a calls loop does not return at all. *)
Theorem print_documentation_never_reports
    (read : string → string + list string) (fuel : nat)
    (scene_file : string) (out : list string) :
  1 ≤ fuel →
  print_documentation read fuel scene_file out
  = match read scene_file with
    | inl e => (banner scene_file out, Raised e)
    | inr lines =>
        match parse_scene 1 lines with
        | Some _ =>
            (print ("No UnityEvent wirings found." +:+ newline)
               (banner scene_file out), Finished)
        | None => (banner scene_file out, Unfinished)
        end
    end.
Proof. apply print_documentation_cases. Qed.

Lemma print_documentation_never_reports_witness :
  print_documentation (sample_files door_scene idle_scene) 3
    "puzzleExample.unity" []
  = (print ("No UnityEvent wirings found." +:+ newline)
       (banner "puzzleExample.unity" []), Finished).
Proof.
  rewrite print_documentation_never_reports by lia. reflexivity.
Defined.

Lemma banner_app scene out : banner scene out = out ++ banner scene [].
Proof. unfold banner, print. by rewrite <- !app_assoc. Qed.

Lemma process_free read fuel scene todo out :
  1 ≤ fuel → blocked read scene = false →
  process read fuel (scene :: todo) out
  = process read fuel todo (out ++ scene_log read scene).
Proof.
  intros Hfuel Hb. cbn [process]. rewrite print_documentation_cases by done.
  unfold blocked in Hb. unfold scene_log, print.
  rewrite (banner_app scene out).
  destruct (read scene) as [e|lines]; [by rewrite <- app_assoc|].
  destruct (parse_scene 1 lines); [|done]. by rewrite <- app_assoc.
Qed.

Lemma process_blocked read fuel scene todo out :
  1 ≤ fuel → blocked read scene = true →
  process read fuel (scene :: todo) out = (out ++ banner scene [], false).
Proof.
  intros Hfuel Hb. cbn [process]. rewrite print_documentation_cases by done.
  unfold blocked in Hb. rewrite (banner_app scene out).
  destruct (read scene) as [e|lines]; [done|].
  by destruct (parse_scene 1 lines).
Qed.

(** X13.  The run over the scenes: a scene that cannot be read costs an
    error message and the run goes on; every scene that is read prints the
    banner and the sentence of line 156; and at the first scene on which
    [parse_scene] does not return the run stops after the banner of that
    scene, so the scenes after it are never looked at. *)
Theorem run_over_scenes (read : string → string + list string)
    (fuel : nat) (past : list string) (out : list string) :
  1 ≤ fuel →
  forallb (λ scene, negb (blocked read scene)) past = true →
  process read fuel past out = (out ++ concat (scene_log read <$> past), true)
  ∧ ∀ scene todo,
      blocked read scene = true →
      process read fuel (past ++ scene :: todo) out
      = (out ++ concat (scene_log read <$> past) ++ banner scene [], false).
Proof.
  intros Hfuel. revert out.
  induction past as [|s past IH]; intros out Hpast.
  - split; [by rewrite app_nil_r|].
    intros scene todo Hb. by apply process_blocked.
  - cbn [forallb] in Hpast. apply andb_true_iff in Hpast as [Hs Hpast].
    apply negb_true_iff in Hs.
    destruct (IH (out ++ scene_log read s) Hpast) as [IH1 IH2].
    rewrite fmap_cons. cbn [concat]. split.
    + rewrite process_free by done. by rewrite IH1, <- !app_assoc.
    + intros scene todo Hb. rewrite <- app_comm_cons.
      rewrite process_free by done. by rewrite IH2, <- !app_assoc.
Qed.

Lemma run_over_scenes_witness :
  main (sample_files idle_scene idle_scene) 1
  = (concat (scene_log (sample_files idle_scene idle_scene) <$> scenes), true)
  ∧ main (sample_files door_scene idle_scene) 1
    = (scene_log (sample_files door_scene idle_scene) "collectionExample.unity"
       ++ banner "projectileExample.unity" [], false).
Proof.
  split.
  - destruct (run_over_scenes (sample_files idle_scene idle_scene) 1
                scenes []) as [H _]; [lia|vm_compute; reflexivity|].
    exact H.
  - destruct (run_over_scenes (sample_files door_scene idle_scene) 1
                ["collectionExample.unity"] []) as [_ H];
      [lia|vm_compute; reflexivity|].
    exact (H "projectileExample.unity" ["puzzleExample.unity"] eq_refl).
Defined.
